(** * Secure Folder API: a shallow embedding of [backend/server.py]

    The FastAPI handlers of [server.py] are embedded as functions in a small
    state-and-exception monad over an explicit model of the MongoDB
    collections.  The external collaborators of the handlers (the random
    source behind [uuid.uuid4], the clock behind [datetime.utcnow], the
    process environment and the SendGrid client) are gathered in an
    environment record; [hashlib.sha256] is embedded bit for bit. *)

From Stdlib Require Import ZArith List String Ascii Bool Lia Arith.
From Stdlib Require Import Sorted Permutation Floats.
Import ListNotations.

Local Open Scope string_scope.
Local Open Scope Z_scope.

(** ** hashlib.sha256

    FIPS 180-4 on 32-bit words.  A word is a [Z] in [0, 2^32); every
    operation that can leave that range wraps around explicitly. *)

Module SHA256.

Definition wrap32 (x : Z) : Z := x mod 2 ^ 32.

Definition add32 (x y : Z) : Z := wrap32 (x + y).

Definition rotr (n x : Z) : Z :=
  Z.lor (Z.shiftr x n) (wrap32 (Z.shiftl x (32 - n))).

Definition not32 (x : Z) : Z := Z.lxor x (2 ^ 32 - 1).

Definition Ch (x y z : Z) : Z := Z.lxor (Z.land x y) (Z.land (not32 x) z).

Definition Maj (x y z : Z) : Z :=
  Z.lxor (Z.lxor (Z.land x y) (Z.land x z)) (Z.land y z).

Definition bsig0 (x : Z) : Z := Z.lxor (Z.lxor (rotr 2 x) (rotr 13 x)) (rotr 22 x).
Definition bsig1 (x : Z) : Z := Z.lxor (Z.lxor (rotr 6 x) (rotr 11 x)) (rotr 25 x).
Definition ssig0 (x : Z) : Z := Z.lxor (Z.lxor (rotr 7 x) (rotr 18 x)) (Z.shiftr x 3).
Definition ssig1 (x : Z) : Z := Z.lxor (Z.lxor (rotr 17 x) (rotr 19 x)) (Z.shiftr x 10).

(** The round constants, in decimal. *)
Definition K : list Z :=
  [ 1116352408; 1899447441; 3049323471; 3921009573; 961987163; 1508970993;
    2453635748; 2870763221; 3624381080; 310598401; 607225278; 1426881987;
    1925078388; 2162078206; 2614888103; 3248222580; 3835390401; 4022224774;
    264347078; 604807628; 770255983; 1249150122; 1555081692; 1996064986;
    2554220882; 2821834349; 2952996808; 3210313671; 3336571891; 3584528711;
    113926993; 338241895; 666307205; 773529912; 1294757372; 1396182291;
    1695183700; 1986661051; 2177026350; 2456956037; 2730485921; 2820302411;
    3259730800; 3345764771; 3516065817; 3600352804; 4094571909; 275423344;
    430227734; 506948616; 659060556; 883997877; 958139571; 1322822218;
    1537002063; 1747873779; 1955562222; 2024104815; 2227730452; 2361852424;
    2428436474; 2756734187; 3204031479; 3329325298 ].

(** The chaining value: eight words. *)
Record state : Type := State {
  sa : Z; sb : Z; sc : Z; sd : Z; se : Z; sf : Z; sg : Z; sh : Z
}.

Definition init : state :=
  State 1779033703 3144134277 1013904242 2773480762
        1359893119 2600822924 528734635 1541459225.

(** The message schedule is grown most recent word first, so that
    W(t-2), W(t-7), W(t-15), W(t-16) sit at fixed offsets. *)
Fixpoint extend (n : nat) (w : list Z) : list Z :=
  match n with
  | O => w
  | S n' =>
      let x := add32 (add32 (ssig1 (nth 1 w 0)) (nth 6 w 0))
                     (add32 (ssig0 (nth 14 w 0)) (nth 15 w 0)) in
      extend n' (x :: w)
  end.

Definition schedule (block : list Z) : list Z := rev (extend 48 (rev block)).

Definition round (s : state) (kw : Z * Z) : state :=
  let '(k, w) := kw in
  let t1 := add32 (add32 (add32 (sh s) (bsig1 (se s)))
                         (add32 (Ch (se s) (sf s) (sg s)) k)) w in
  let t2 := add32 (bsig0 (sa s)) (Maj (sa s) (sb s) (sc s)) in
  State (add32 t1 t2) (sa s) (sb s) (sc s) (add32 (sd s) t1) (se s) (sf s) (sg s).

Definition compress (s : state) (block : list Z) : state :=
  let r := fold_left round (combine K (schedule block)) s in
  State (add32 (sa s) (sa r)) (add32 (sb s) (sb r)) (add32 (sc s) (sc r))
        (add32 (sd s) (sd r)) (add32 (se s) (se r)) (add32 (sf s) (sf r))
        (add32 (sg s) (sg r)) (add32 (sh s) (sh r)).

(** Padding: the byte 0x80, zero bytes up to 56 modulo 64, then the bit
    length on eight bytes, most significant first. *)
Fixpoint be_bytes (n : nat) (x : Z) (acc : list Z) : list Z :=
  match n with
  | O => acc
  | S n' => be_bytes n' (x / 256) (x mod 256 :: acc)
  end.

Definition pad (msg : list Z) : list Z :=
  let len := Z.of_nat (List.length msg) in
  (msg ++ 128 :: repeat 0 (Z.to_nat ((55 - len) mod 64)) ++ be_bytes 8 (8 * len) [])%list.

Fixpoint words (bs : list Z) : list Z :=
  match bs with
  | b0 :: b1 :: b2 :: b3 :: rest =>
      (((b0 * 256 + b1) * 256 + b2) * 256 + b3) :: words rest
  | _ => []
  end.

Fixpoint blocks (n : nat) (ws : list Z) : list (list Z) :=
  match n with
  | O => []
  | S n' => firstn 16 ws :: blocks n' (skipn 16 ws)
  end.

Definition hash (msg : list Z) : state :=
  let ws := words (pad msg) in
  fold_left compress (blocks (List.length ws / 16) ws) init.

(** The digest read as one 256-bit big-endian number. *)
Definition pack (s : state) : Z :=
  ((((((sa s * 2 ^ 32 + sb s) * 2 ^ 32 + sc s) * 2 ^ 32 + sd s) * 2 ^ 32
      + se s) * 2 ^ 32 + sf s) * 2 ^ 32 + sg s) * 2 ^ 32 + sh s.

Definition digest (msg : list Z) : Z := pack (hash msg).

Definition hex_char (d : Z) : ascii :=
  ascii_of_nat (Z.to_nat (if d <? 10 then 48 + d else 87 + d)).

Fixpoint hex (n : nat) (x : Z) (acc : string) : string :=
  match n with
  | O => acc
  | S n' => hex n' (x / 16) (String (hex_char (x mod 16)) acc)
  end.

Definition hexdigest (msg : list Z) : string := hex 64 (digest msg) "".

(** Being a 32-bit word, and a chaining value of eight such words. *)
Definition word (x : Z) : Prop := 0 <= x < 2 ^ 32.

Definition state_ok (s : state) : Prop :=
  word (sa s) /\ word (sb s) /\ word (sc s) /\ word (sd s) /\
  word (se s) /\ word (sf s) /\ word (sg s) /\ word (sh s).

End SHA256.

(** [str.encode()]: strings are kept as their UTF-8 bytes. *)
Fixpoint encode (s : string) : list Z :=
  match s with
  | EmptyString => []
  | String c s' => Z.of_nat (nat_of_ascii c) :: encode s'
  end.

(** ** Helper functions of the module *)

Definition hash_pin (pin : string) : string := SHA256.hexdigest (encode pin).

Definition verify_pin (pin hashed : string) : bool := String.eqb (hash_pin pin) hashed.


(** ** datetime

    A naive [datetime] as Python keeps it: calendar fields, compared field by
    field from the year down. *)

Record datetime : Type := Datetime {
  year : Z; month : Z; day : Z;
  hour : Z; minute : Z; second : Z; microsecond : Z
}.

Definition dt_fields (d : datetime) : list Z :=
  [year d; month d; day d; hour d; minute d; second d; microsecond d].

Fixpoint lex_leb (x y : list Z) : bool :=
  match x, y with
  | [], _ => true
  | _ :: _, [] => false
  | a :: x', b :: y' => (a <? b) || ((a =? b) && lex_leb x' y')
  end.

Definition dt_leb (a b : datetime) : bool := lex_leb (dt_fields a) (dt_fields b).

(** Zero-padded decimal on [n] digits. *)
Fixpoint decimal (n : nat) (x : Z) (acc : string) : string :=
  match n with
  | O => acc
  | S n' => decimal n' (x / 10) (String (ascii_of_nat (Z.to_nat (48 + x mod 10))) acc)
  end.

(** [datetime.isoformat()]: the fraction is printed only when it is not 0. *)
Definition isoformat (d : datetime) : string :=
  decimal 4 (year d) ("-" ++ decimal 2 (month d) ("-" ++ decimal 2 (day d)
    ("T" ++ decimal 2 (hour d) (":" ++ decimal 2 (minute d) (":" ++ decimal 2 (second d)
      (if microsecond d =? 0 then "" else "." ++ decimal 6 (microsecond d) "")))))).

(** [strftime('%Y-%m-%d %H:%M:%S UTC')] and [strftime("%Y%m%d_%H%M%S")]. *)
Definition strftime_utc (d : datetime) : string :=
  decimal 4 (year d) ("-" ++ decimal 2 (month d) ("-" ++ decimal 2 (day d)
    (" " ++ decimal 2 (hour d) (":" ++ decimal 2 (minute d) (":" ++ decimal 2 (second d)
      " UTC"))))).

Definition strftime_compact (d : datetime) : string :=
  decimal 4 (year d) (decimal 2 (month d) (decimal 2 (day d)
    ("_" ++ decimal 2 (hour d) (decimal 2 (minute d) (decimal 2 (second d) ""))))).

(** A datetime as MongoDB keeps it: BSON dates count milliseconds, so the
    driver drops what is below a millisecond when it stores a [datetime]. *)
Definition bson_datetime (d : datetime) : datetime :=
  Datetime (year d) (month d) (day d) (hour d) (minute d) (second d)
    (microsecond d / 1000 * 1000).

(** ** Truthiness of the optional values the handlers test *)

Definition truthy_str (s : option string) : bool :=
  match s with
  | Some (String _ _) => true
  | _ => false
  end.

Definition truthy_float (x : option float) : bool :=
  match x with
  | Some v => negb (PrimFloat.eqb v 0%float)
  | None => false
  end.

Definition is_not_None {A : Type} (x : option A) : bool :=
  match x with Some _ => true | None => false end.

(** ** Models

    One module per pydantic model or stored dictionary, so that fields keep
    the names they have in the source. *)

(** [email] is an [EmailStr]: pydantic has checked its syntax before the
    handler runs, and hands it over with the letter case of the part
    before the at sign as it was submitted. *)
Module UserCreate.
Record t : Type := mk { email : string; pin : string }.
End UserCreate.

Module UserResponse.
Record t : Type := mk {
  id : string; email : string; created_at : datetime; is_premium : bool
}.
End UserResponse.

Module PinVerify.
Record t : Type := mk { user_id : string; pin : string }.
End PinVerify.

(** The dictionary [create_user] stores in [db.users]. *)
Module User.
Record t : Type := mk {
  id : string; email : string; pin_hash : string;
  created_at : datetime; is_premium : option bool
}.
End User.

Module Document.
Record t : Type := mk {
  id : string; user_id : string; doc_type : string; name : string;
  image_base64 : string; created_at : datetime; updated_at : datetime
}.
End Document.

Module DocumentCreate.
Record t : Type := mk {
  user_id : string; doc_type : string; name : string; image_base64 : string
}.
End DocumentCreate.

Module OfficerAccess.
Record t : Type := mk {
  id : string; user_id : string; officer_name : string; badge_number : string;
  timestamp : datetime; latitude : option float; longitude : option float;
  address : option string; documents_viewed : list string
}.
End OfficerAccess.

Module OfficerAccessCreate.
Record t : Type := mk {
  user_id : string; officer_name : string; badge_number : string;
  latitude : option float; longitude : option float;
  address : option string; documents_viewed : list string
}.
End OfficerAccessCreate.

(** A dictionary of [db.failed_attempts]: [log_failed_attempt] stores the
    five fields of the pydantic model, [send_failed_alert] a hand-built
    dictionary that also has the key [has_photo]. *)
Module FailedAttempt.
Record t : Type := mk {
  id : string; user_id : string; timestamp : datetime;
  latitude : option float; longitude : option float;
  has_photo : option bool
}.
End FailedAttempt.

Module FailedAttemptCreate.
Record t : Type := mk {
  user_id : string; latitude : option float; longitude : option float
}.
End FailedAttemptCreate.

Module EmailAlertRequest.
Record t : Type := mk {
  user_id : string; email : string;
  latitude : option float; longitude : option float;
  intruder_photo : option string
}.
End EmailAlertRequest.

(** The dictionary [send_failed_alert] stores in [db.intruder_photos]. *)
Module IntruderPhoto.
Record t : Type := mk {
  id : string; attempt_id : string; user_id : string;
  timestamp : datetime; photo_base64 : string
}.
End IntruderPhoto.

(** ** Dictionaries as BSON documents

    [to_bson d] is the document the driver stores for the dictionary [d]:
    the same fields, every datetime cut to milliseconds. *)

Class BSON (A : Type) : Type := to_bson : A -> A.

#[global] Instance bson_user : BSON User.t := fun u =>
  User.mk (User.id u) (User.email u) (User.pin_hash u)
    (bson_datetime (User.created_at u)) (User.is_premium u).

#[global] Instance bson_document : BSON Document.t := fun d =>
  Document.mk (Document.id d) (Document.user_id d) (Document.doc_type d)
    (Document.name d) (Document.image_base64 d)
    (bson_datetime (Document.created_at d)) (bson_datetime (Document.updated_at d)).

#[global] Instance bson_access : BSON OfficerAccess.t := fun a =>
  OfficerAccess.mk (OfficerAccess.id a) (OfficerAccess.user_id a)
    (OfficerAccess.officer_name a) (OfficerAccess.badge_number a)
    (bson_datetime (OfficerAccess.timestamp a))
    (OfficerAccess.latitude a) (OfficerAccess.longitude a)
    (OfficerAccess.address a) (OfficerAccess.documents_viewed a).

#[global] Instance bson_attempt : BSON FailedAttempt.t := fun a =>
  FailedAttempt.mk (FailedAttempt.id a) (FailedAttempt.user_id a)
    (bson_datetime (FailedAttempt.timestamp a))
    (FailedAttempt.latitude a) (FailedAttempt.longitude a) (FailedAttempt.has_photo a).

#[global] Instance bson_photo : BSON IntruderPhoto.t := fun p =>
  IntruderPhoto.mk (IntruderPhoto.id p) (IntruderPhoto.attempt_id p)
    (IntruderPhoto.user_id p) (bson_datetime (IntruderPhoto.timestamp p))
    (IntruderPhoto.photo_base64 p).

(** ** The database

    A Mongo collection is the sequence of its documents in insertion order;
    nothing in the code declares a unique index, so a collection may hold
    documents that agree on any field. *)

Record DB : Type := mkDB {
  users : list User.t;
  documents : list Document.t;
  access_logs : list OfficerAccess.t;
  failed_attempts : list FailedAttempt.t;
  intruder_photos : list IntruderPhoto.t
}.

Definition empty_db : DB := mkDB [] [] [] [] [].

Module Mongo.

Section Collection.
Context {A : Type} {bson : BSON A}.

Definition find_one (q : A -> bool) (c : list A) : option A := List.find q c.

(** [insert_one] appends the BSON form of the dictionary.  It also adds
    the key [_id] to the dictionary it is given; the handlers read that
    dictionary again only through pydantic models and named keys, which
    ignore it. *)
Definition insert_one (d : A) (c : list A) : list A := (c ++ [to_bson d])%list.

(** [delete_one]: the first match goes; the count is [deleted_count]. *)
Fixpoint delete_one (q : A -> bool) (c : list A) : nat * list A :=
  match c with
  | [] => (O, [])
  | d :: c' =>
      if q d then (1%nat, c')
      else let '(n, r) := delete_one q c' in (n, d :: r)
  end.

(** [update_one]: the first match is rewritten; the count is [matched_count]. *)
Fixpoint update_one (q : A -> bool) (upd : A -> A) (c : list A) : nat * list A :=
  match c with
  | [] => (O, [])
  | d :: c' =>
      if q d then (1%nat, upd d :: c')
      else let '(n, r) := update_one q upd c' in (n, d :: r)
  end.

Definition find (q : A -> bool) (c : list A) : list A := List.filter q c.

(** [cursor.sort(key, -1)]: descending, documents with equal keys staying
    in the order the collection has them. *)
Fixpoint insert_desc (key : A -> datetime) (x : A) (l : list A) : list A :=
  match l with
  | [] => [x]
  | y :: l' =>
      if dt_leb (key y) (key x) then x :: l
      else y :: insert_desc key x l'
  end.

Definition sort_desc (key : A -> datetime) (l : list A) : list A :=
  fold_right (insert_desc key) [] l.

Definition to_list (n : nat) (l : list A) : list A := firstn n l.

End Collection.

End Mongo.

(** ** The world around the handlers *)

(** What [sg.send(message)] does: raise, or answer with a status code. *)
Inductive send_outcome : Type :=
| SendRaises
| SendStatus (status_code : Z).

Module Attachment.
Record t : Type := mk {
  file_content : string; file_name : string;
  file_type : string; disposition : string
}.
End Attachment.

(** [Mail]: the HTML body is kept as the parts that vary. *)
Module Mail.
Record t : Type := mk {
  from_email : string;
  to_emails : string;
  subject : string;
  time_line : string;
  location_info : option (float * float);
  photo_section : bool;
  attachment : option Attachment.t
}.
End Mail.

Record Env : Type := mkEnv {
  uuid_source : nat -> string;       (* the n-th value of str(uuid.uuid4()) *)
  clock : nat -> datetime;           (* the n-th value of datetime.utcnow() *)
  SENDGRID_API_KEY : option string;  (* os.environ.get('SENDGRID_API_KEY') *)
  SENDER_EMAIL : option string;      (* os.environ.get('SENDER_EMAIL') *)
  sendgrid_importable : bool;        (* whether [from sendgrid import ...] succeeds *)
  sg_send : string -> Mail.t -> send_outcome
}.

Record World : Type := mkWorld {
  db : DB;
  uuid_calls : nat;
  clock_calls : nat
}.

(** ** The handler monad: environment, state, and [HTTPException] *)

Inductive Result (A : Type) : Type :=
| Ok (a : A)
| HTTPException (status_code : Z) (detail : string).
Arguments Ok {A} a.
Arguments HTTPException {A} status_code detail.

Definition M (A : Type) : Type := Env -> World -> Result A * World.

Definition ret {A : Type} (a : A) : M A := fun _ w => (Ok a, w).

Definition bind {A B : Type} (m : M A) (k : A -> M B) : M B :=
  fun e w =>
    match m e w with
    | (Ok a, w') => k a e w'
    | (HTTPException c d, w') => (HTTPException c d, w')
    end.

Definition raise {A : Type} (status_code : Z) (detail : string) : M A :=
  fun _ w => (HTTPException status_code detail, w).

Notation "x <- m ;; k" := (bind m (fun x => k))
  (at level 61, m at next level, right associativity).
Notation "m ;;; k" := (bind m (fun _ => k))
  (at level 61, right associativity).

Definition uuid4 : M string :=
  fun e w => (Ok (uuid_source e (uuid_calls w)),
              mkWorld (db w) (S (uuid_calls w)) (clock_calls w)).

Definition utcnow : M datetime :=
  fun e w => (Ok (clock e (clock_calls w)),
              mkWorld (db w) (uuid_calls w) (S (clock_calls w))).

Definition environ {A : Type} (f : Env -> A) : M A := fun e w => (Ok (f e), w).

(** A collection of the database, as the attribute [db.<name>]. *)
Record collection (A : Type) : Type := mkColl {
  coll_get : DB -> list A;
  coll_set : list A -> DB -> DB
}.
Arguments mkColl {A} coll_get coll_set.
Arguments coll_get {A} c d.
Arguments coll_set {A} c l d.

Definition db_users : collection User.t :=
  mkColl users
    (fun l d => mkDB l (documents d) (access_logs d) (failed_attempts d) (intruder_photos d)).
Definition db_documents : collection Document.t :=
  mkColl documents
    (fun l d => mkDB (users d) l (access_logs d) (failed_attempts d) (intruder_photos d)).
Definition db_access_logs : collection OfficerAccess.t :=
  mkColl access_logs
    (fun l d => mkDB (users d) (documents d) l (failed_attempts d) (intruder_photos d)).
Definition db_failed_attempts : collection FailedAttempt.t :=
  mkColl failed_attempts
    (fun l d => mkDB (users d) (documents d) (access_logs d) l (intruder_photos d)).
Definition db_intruder_photos : collection IntruderPhoto.t :=
  mkColl intruder_photos
    (fun l d => mkDB (users d) (documents d) (access_logs d) (failed_attempts d) l).

Definition read {A : Type} (c : collection A) : M (list A) :=
  fun _ w => (Ok (coll_get c (db w)), w).

Definition write {A : Type} (c : collection A) (l : list A) : M unit :=
  fun _ w => (Ok tt, mkWorld (coll_set c l (db w)) (uuid_calls w) (clock_calls w)).

Definition find_one {A : Type} (c : collection A) (q : A -> bool) : M (option A) :=
  l <- read c ;; ret (Mongo.find_one q l).

Definition insert_one {A : Type} {bson : BSON A} (c : collection A) (d : A) : M unit :=
  l <- read c ;; write c (Mongo.insert_one d l).

Definition delete_one {A : Type} (c : collection A) (q : A -> bool) : M nat :=
  l <- read c ;;
  let '(deleted_count, l') := Mongo.delete_one q l in
  write c l' ;;; ret deleted_count.

Definition update_one {A : Type} (c : collection A) (q : A -> bool) (upd : A -> A) : M nat :=
  l <- read c ;;
  let '(matched_count, l') := Mongo.update_one q upd l in
  write c l' ;;; ret matched_count.

Definition find {A : Type} (c : collection A) (q : A -> bool) : M (list A) :=
  l <- read c ;; ret (Mongo.find q l).

(** ** str.lower()

    A Python [str] is kept as its UTF-8 bytes, so [str.lower()] decodes the
    bytes to code points, lowers them as CPython does, and encodes the
    result.  CPython lowers a code point by the Unicode lower-case mapping
    (one code point, but for U+0130, which gives two), and a capital sigma
    by its context: final when a cased letter comes before it and none
    after it, case-ignorable code points being skipped on both sides.  The
    three tables are those of Unicode 14. *)

Module Unicode.

(** Lower-case mappings: the code points from [lo] to [hi] in steps of
    [step] are mapped to themselves plus [delta]. *)
Definition lower_table : list (Z * Z * Z * Z) :=
  [ (65, 90, 32, 1); (192, 214, 32, 1); (216, 222, 32, 1); (256, 302, 1, 2);
    (306, 310, 1, 2); (313, 327, 1, 2); (330, 374, 1, 2); (376, 376, -121, 1);
    (377, 381, 1, 2); (385, 385, 210, 1); (386, 388, 1, 2); (390, 390, 206, 1);
    (391, 391, 1, 1); (393, 394, 205, 1); (395, 395, 1, 1); (398, 398, 79, 1);
    (399, 399, 202, 1); (400, 400, 203, 1); (401, 401, 1, 1); (403, 403, 205, 1);
    (404, 404, 207, 1); (406, 406, 211, 1); (407, 407, 209, 1); (408, 408, 1, 1);
    (412, 412, 211, 1); (413, 413, 213, 1); (415, 415, 214, 1); (416, 420, 1, 2);
    (422, 422, 218, 1); (423, 423, 1, 1); (425, 425, 218, 1); (428, 428, 1, 1);
    (430, 430, 218, 1); (431, 431, 1, 1); (433, 434, 217, 1); (435, 437, 1, 2);
    (439, 439, 219, 1); (440, 440, 1, 1); (444, 444, 1, 1); (452, 452, 2, 1);
    (453, 453, 1, 1); (455, 455, 2, 1); (456, 456, 1, 1); (458, 458, 2, 1);
    (459, 475, 1, 2); (478, 494, 1, 2); (497, 497, 2, 1); (498, 500, 1, 2);
    (502, 502, -97, 1); (503, 503, -56, 1); (504, 542, 1, 2); (544, 544, -130, 1);
    (546, 562, 1, 2); (570, 570, 10795, 1); (571, 571, 1, 1); (573, 573, -163, 1);
    (574, 574, 10792, 1); (577, 577, 1, 1); (579, 579, -195, 1); (580, 580, 69, 1);
    (581, 581, 71, 1); (582, 590, 1, 2); (880, 882, 1, 2); (886, 886, 1, 1);
    (895, 895, 116, 1); (902, 902, 38, 1); (904, 906, 37, 1); (908, 908, 64, 1);
    (910, 911, 63, 1); (913, 929, 32, 1); (931, 939, 32, 1); (975, 975, 8, 1);
    (984, 1006, 1, 2); (1012, 1012, -60, 1); (1015, 1015, 1, 1); (1017, 1017, -7, 1);
    (1018, 1018, 1, 1); (1021, 1023, -130, 1); (1024, 1039, 80, 1); (1040, 1071, 32, 1);
    (1120, 1152, 1, 2); (1162, 1214, 1, 2); (1216, 1216, 15, 1); (1217, 1229, 1, 2);
    (1232, 1326, 1, 2); (1329, 1366, 48, 1); (4256, 4293, 7264, 1); (4295, 4295, 7264, 1);
    (4301, 4301, 7264, 1); (5024, 5103, 38864, 1); (5104, 5109, 8, 1);
    (7312, 7354, -3008, 1); (7357, 7359, -3008, 1); (7680, 7828, 1, 2);
    (7838, 7838, -7615, 1); (7840, 7934, 1, 2); (7944, 7951, -8, 1); (7960, 7965, -8, 1);
    (7976, 7983, -8, 1); (7992, 7999, -8, 1); (8008, 8013, -8, 1); (8025, 8031, -8, 2);
    (8040, 8047, -8, 1); (8072, 8079, -8, 1); (8088, 8095, -8, 1); (8104, 8111, -8, 1);
    (8120, 8121, -8, 1); (8122, 8123, -74, 1); (8124, 8124, -9, 1); (8136, 8139, -86, 1);
    (8140, 8140, -9, 1); (8152, 8153, -8, 1); (8154, 8155, -100, 1); (8168, 8169, -8, 1);
    (8170, 8171, -112, 1); (8172, 8172, -7, 1); (8184, 8185, -128, 1);
    (8186, 8187, -126, 1); (8188, 8188, -9, 1); (8486, 8486, -7517, 1);
    (8490, 8490, -8383, 1); (8491, 8491, -8262, 1); (8498, 8498, 28, 1);
    (8544, 8559, 16, 1); (8579, 8579, 1, 1); (9398, 9423, 26, 1); (11264, 11311, 48, 1);
    (11360, 11360, 1, 1); (11362, 11362, -10743, 1); (11363, 11363, -3814, 1);
    (11364, 11364, -10727, 1); (11367, 11371, 1, 2); (11373, 11373, -10780, 1);
    (11374, 11374, -10749, 1); (11375, 11375, -10783, 1); (11376, 11376, -10782, 1);
    (11378, 11378, 1, 1); (11381, 11381, 1, 1); (11390, 11391, -10815, 1);
    (11392, 11490, 1, 2); (11499, 11501, 1, 2); (11506, 11506, 1, 1); (42560, 42604, 1, 2);
    (42624, 42650, 1, 2); (42786, 42798, 1, 2); (42802, 42862, 1, 2); (42873, 42875, 1, 2);
    (42877, 42877, -35332, 1); (42878, 42886, 1, 2); (42891, 42891, 1, 1);
    (42893, 42893, -42280, 1); (42896, 42898, 1, 2); (42902, 42920, 1, 2);
    (42922, 42922, -42308, 1); (42923, 42923, -42319, 1); (42924, 42924, -42315, 1);
    (42925, 42925, -42305, 1); (42926, 42926, -42308, 1); (42928, 42928, -42258, 1);
    (42929, 42929, -42282, 1); (42930, 42930, -42261, 1); (42931, 42931, 928, 1);
    (42932, 42946, 1, 2); (42948, 42948, -48, 1); (42949, 42949, -42307, 1);
    (42950, 42950, -35384, 1); (42951, 42953, 1, 2); (42960, 42960, 1, 1);
    (42966, 42968, 1, 2); (42997, 42997, 1, 1); (65313, 65338, 32, 1);
    (66560, 66599, 40, 1); (66736, 66771, 40, 1); (66928, 66938, 39, 1);
    (66940, 66954, 39, 1); (66956, 66962, 39, 1); (66964, 66965, 39, 1);
    (68736, 68786, 64, 1); (71840, 71871, 32, 1); (93760, 93791, 32, 1);
    (125184, 125217, 34, 1) ].

(** The case-ignorable code points, as ranges. *)
Definition case_ignorable_table : list (Z * Z) :=
  [ (39, 39); (46, 46); (58, 58); (94, 94); (96, 96); (168, 168); (173, 173); (175, 175);
    (180, 180); (183, 184); (688, 879); (884, 885); (890, 890); (900, 901); (903, 903);
    (1155, 1161); (1369, 1369); (1375, 1375); (1425, 1469); (1471, 1471); (1473, 1474);
    (1476, 1477); (1479, 1479); (1524, 1524); (1536, 1541); (1552, 1562); (1564, 1564);
    (1600, 1600); (1611, 1631); (1648, 1648); (1750, 1757); (1759, 1768); (1770, 1773);
    (1807, 1807); (1809, 1809); (1840, 1866); (1958, 1968); (2027, 2037); (2042, 2042);
    (2045, 2045); (2070, 2093); (2137, 2139); (2184, 2184); (2192, 2193); (2200, 2207);
    (2249, 2306); (2362, 2362); (2364, 2364); (2369, 2376); (2381, 2381); (2385, 2391);
    (2402, 2403); (2417, 2417); (2433, 2433); (2492, 2492); (2497, 2500); (2509, 2509);
    (2530, 2531); (2558, 2558); (2561, 2562); (2620, 2620); (2625, 2626); (2631, 2632);
    (2635, 2637); (2641, 2641); (2672, 2673); (2677, 2677); (2689, 2690); (2748, 2748);
    (2753, 2757); (2759, 2760); (2765, 2765); (2786, 2787); (2810, 2815); (2817, 2817);
    (2876, 2876); (2879, 2879); (2881, 2884); (2893, 2893); (2901, 2902); (2914, 2915);
    (2946, 2946); (3008, 3008); (3021, 3021); (3072, 3072); (3076, 3076); (3132, 3132);
    (3134, 3136); (3142, 3144); (3146, 3149); (3157, 3158); (3170, 3171); (3201, 3201);
    (3260, 3260); (3263, 3263); (3270, 3270); (3276, 3277); (3298, 3299); (3328, 3329);
    (3387, 3388); (3393, 3396); (3405, 3405); (3426, 3427); (3457, 3457); (3530, 3530);
    (3538, 3540); (3542, 3542); (3633, 3633); (3636, 3642); (3654, 3662); (3761, 3761);
    (3764, 3772); (3782, 3782); (3784, 3789); (3864, 3865); (3893, 3893); (3895, 3895);
    (3897, 3897); (3953, 3966); (3968, 3972); (3974, 3975); (3981, 3991); (3993, 4028);
    (4038, 4038); (4141, 4144); (4146, 4151); (4153, 4154); (4157, 4158); (4184, 4185);
    (4190, 4192); (4209, 4212); (4226, 4226); (4229, 4230); (4237, 4237); (4253, 4253);
    (4348, 4348); (4957, 4959); (5906, 5908); (5938, 5939); (5970, 5971); (6002, 6003);
    (6068, 6069); (6071, 6077); (6086, 6086); (6089, 6099); (6103, 6103); (6109, 6109);
    (6155, 6159); (6211, 6211); (6277, 6278); (6313, 6313); (6432, 6434); (6439, 6440);
    (6450, 6450); (6457, 6459); (6679, 6680); (6683, 6683); (6742, 6742); (6744, 6750);
    (6752, 6752); (6754, 6754); (6757, 6764); (6771, 6780); (6783, 6783); (6823, 6823);
    (6832, 6862); (6912, 6915); (6964, 6964); (6966, 6970); (6972, 6972); (6978, 6978);
    (7019, 7027); (7040, 7041); (7074, 7077); (7080, 7081); (7083, 7085); (7142, 7142);
    (7144, 7145); (7149, 7149); (7151, 7153); (7212, 7219); (7222, 7223); (7288, 7293);
    (7376, 7378); (7380, 7392); (7394, 7400); (7405, 7405); (7412, 7412); (7416, 7417);
    (7468, 7530); (7544, 7544); (7579, 7679); (8125, 8125); (8127, 8129); (8141, 8143);
    (8157, 8159); (8173, 8175); (8189, 8190); (8203, 8207); (8216, 8217); (8228, 8228);
    (8231, 8231); (8234, 8238); (8288, 8292); (8294, 8303); (8305, 8305); (8319, 8319);
    (8336, 8348); (8400, 8432); (11388, 11389); (11503, 11505); (11631, 11631);
    (11647, 11647); (11744, 11775); (11823, 11823); (12293, 12293); (12330, 12333);
    (12337, 12341); (12347, 12347); (12441, 12446); (12540, 12542); (40981, 40981);
    (42232, 42237); (42508, 42508); (42607, 42610); (42612, 42621); (42623, 42623);
    (42652, 42655); (42736, 42737); (42752, 42785); (42864, 42864); (42888, 42890);
    (42994, 42996); (43000, 43001); (43010, 43010); (43014, 43014); (43019, 43019);
    (43045, 43046); (43052, 43052); (43204, 43205); (43232, 43249); (43263, 43263);
    (43302, 43309); (43335, 43345); (43392, 43394); (43443, 43443); (43446, 43449);
    (43452, 43453); (43471, 43471); (43493, 43494); (43561, 43566); (43569, 43570);
    (43573, 43574); (43587, 43587); (43596, 43596); (43632, 43632); (43644, 43644);
    (43696, 43696); (43698, 43700); (43703, 43704); (43710, 43711); (43713, 43713);
    (43741, 43741); (43756, 43757); (43763, 43764); (43766, 43766); (43867, 43871);
    (43881, 43883); (44005, 44005); (44008, 44008); (44013, 44013); (64286, 64286);
    (64434, 64450); (65024, 65039); (65043, 65043); (65056, 65071); (65106, 65106);
    (65109, 65109); (65279, 65279); (65287, 65287); (65294, 65294); (65306, 65306);
    (65342, 65342); (65344, 65344); (65392, 65392); (65438, 65439); (65507, 65507);
    (65529, 65531); (66045, 66045); (66272, 66272); (66422, 66426); (67456, 67461);
    (67463, 67504); (67506, 67514); (68097, 68099); (68101, 68102); (68108, 68111);
    (68152, 68154); (68159, 68159); (68325, 68326); (68900, 68903); (69291, 69292);
    (69446, 69456); (69506, 69509); (69633, 69633); (69688, 69702); (69744, 69744);
    (69747, 69748); (69759, 69761); (69811, 69814); (69817, 69818); (69821, 69821);
    (69826, 69826); (69837, 69837); (69888, 69890); (69927, 69931); (69933, 69940);
    (70003, 70003); (70016, 70017); (70070, 70078); (70089, 70092); (70095, 70095);
    (70191, 70193); (70196, 70196); (70198, 70199); (70206, 70206); (70367, 70367);
    (70371, 70378); (70400, 70401); (70459, 70460); (70464, 70464); (70502, 70508);
    (70512, 70516); (70712, 70719); (70722, 70724); (70726, 70726); (70750, 70750);
    (70835, 70840); (70842, 70842); (70847, 70848); (70850, 70851); (71090, 71093);
    (71100, 71101); (71103, 71104); (71132, 71133); (71219, 71226); (71229, 71229);
    (71231, 71232); (71339, 71339); (71341, 71341); (71344, 71349); (71351, 71351);
    (71453, 71455); (71458, 71461); (71463, 71467); (71727, 71735); (71737, 71738);
    (71995, 71996); (71998, 71998); (72003, 72003); (72148, 72151); (72154, 72155);
    (72160, 72160); (72193, 72202); (72243, 72248); (72251, 72254); (72263, 72263);
    (72273, 72278); (72281, 72283); (72330, 72342); (72344, 72345); (72752, 72758);
    (72760, 72765); (72767, 72767); (72850, 72871); (72874, 72880); (72882, 72883);
    (72885, 72886); (73009, 73014); (73018, 73018); (73020, 73021); (73023, 73029);
    (73031, 73031); (73104, 73105); (73109, 73109); (73111, 73111); (73459, 73460);
    (78896, 78904); (92912, 92916); (92976, 92982); (92992, 92995); (94031, 94031);
    (94095, 94111); (94176, 94177); (94179, 94180); (110576, 110579); (110581, 110587);
    (110589, 110590); (113821, 113822); (113824, 113827); (118528, 118573);
    (118576, 118598); (119143, 119145); (119155, 119170); (119173, 119179);
    (119210, 119213); (119362, 119364); (121344, 121398); (121403, 121452);
    (121461, 121461); (121476, 121476); (121499, 121503); (121505, 121519);
    (122880, 122886); (122888, 122904); (122907, 122913); (122915, 122916);
    (122918, 122922); (123184, 123197); (123566, 123566); (123628, 123631);
    (125136, 125142); (125252, 125259); (127995, 127999); (917505, 917505);
    (917536, 917631); (917760, 917999) ].

(** The cased code points that are not case-ignorable, as ranges. *)
Definition cased_table : list (Z * Z) :=
  [ (65, 90); (97, 122); (170, 170); (181, 181); (186, 186); (192, 214); (216, 246);
    (248, 442); (444, 447); (452, 659); (661, 687); (880, 883); (886, 887); (891, 893);
    (895, 895); (902, 902); (904, 906); (908, 908); (910, 929); (931, 1013); (1015, 1153);
    (1162, 1327); (1329, 1366); (1376, 1416); (4256, 4293); (4295, 4295); (4301, 4301);
    (4304, 4346); (4349, 4351); (5024, 5109); (5112, 5117); (7296, 7304); (7312, 7354);
    (7357, 7359); (7424, 7467); (7531, 7543); (7545, 7578); (7680, 7957); (7960, 7965);
    (7968, 8005); (8008, 8013); (8016, 8023); (8025, 8025); (8027, 8027); (8029, 8029);
    (8031, 8061); (8064, 8116); (8118, 8124); (8126, 8126); (8130, 8132); (8134, 8140);
    (8144, 8147); (8150, 8155); (8160, 8172); (8178, 8180); (8182, 8188); (8450, 8450);
    (8455, 8455); (8458, 8467); (8469, 8469); (8473, 8477); (8484, 8484); (8486, 8486);
    (8488, 8488); (8490, 8493); (8495, 8500); (8505, 8505); (8508, 8511); (8517, 8521);
    (8526, 8526); (8544, 8575); (8579, 8580); (9398, 9449); (11264, 11387); (11390, 11492);
    (11499, 11502); (11506, 11507); (11520, 11557); (11559, 11559); (11565, 11565);
    (42560, 42605); (42624, 42651); (42786, 42863); (42865, 42887); (42891, 42894);
    (42896, 42954); (42960, 42961); (42963, 42963); (42965, 42969); (42997, 42998);
    (43002, 43002); (43824, 43866); (43872, 43880); (43888, 43967); (64256, 64262);
    (64275, 64279); (65313, 65338); (65345, 65370); (66560, 66639); (66736, 66771);
    (66776, 66811); (66928, 66938); (66940, 66954); (66956, 66962); (66964, 66965);
    (66967, 66977); (66979, 66993); (66995, 67001); (67003, 67004); (68736, 68786);
    (68800, 68850); (71840, 71903); (93760, 93823); (119808, 119892); (119894, 119964);
    (119966, 119967); (119970, 119970); (119973, 119974); (119977, 119980);
    (119982, 119993); (119995, 119995); (119997, 120003); (120005, 120069);
    (120071, 120074); (120077, 120084); (120086, 120092); (120094, 120121);
    (120123, 120126); (120128, 120132); (120134, 120134); (120138, 120144);
    (120146, 120485); (120488, 120512); (120514, 120538); (120540, 120570);
    (120572, 120596); (120598, 120628); (120630, 120654); (120656, 120686);
    (120688, 120712); (120714, 120744); (120746, 120770); (120772, 120779);
    (122624, 122633); (122635, 122654); (125184, 125251); (127280, 127305);
    (127312, 127337); (127344, 127369) ].

Fixpoint lookup_lower (t : list (Z * Z * Z * Z)) (c : Z) : option Z :=
  match t with
  | [] => None
  | (lo, hi, delta, step) :: t' =>
      if (lo <=? c) && (c <=? hi) && ((c - lo) mod step =? 0)
      then Some (c + delta)
      else lookup_lower t' c
  end.

Fixpoint in_ranges (t : list (Z * Z)) (c : Z) : bool :=
  match t with
  | [] => false
  | (lo, hi) :: t' => ((lo <=? c) && (c <=? hi)) || in_ranges t' c
  end.

Definition case_ignorable (c : Z) : bool := in_ranges case_ignorable_table c.

Definition cased (c : Z) : bool := in_ranges cased_table c.

(** One code point lowered: U+0130 gives [i] and a combining dot. *)
Definition lower_full (c : Z) : list Z :=
  if c =? 304 then [105; 775]
  else match lookup_lower lower_table c with
       | Some l => [l]
       | None => [c]
       end.

(** Whether a cased letter follows, case-ignorable code points skipped. *)
Fixpoint cased_follows (rest : list Z) : bool :=
  match rest with
  | [] => false
  | c :: rest' => if case_ignorable c then cased_follows rest' else cased c
  end.

(** [after_cased]: the last code point before that is not case-ignorable
    is cased.  U+03A3 gives U+03C2 in final position, U+03C3 elsewhere. *)
Fixpoint lower_from (after_cased : bool) (cps : list Z) : list Z :=
  match cps with
  | [] => []
  | c :: rest =>
      ((if c =? 931
        then [if after_cased && negb (cased_follows rest) then 962 else 963]
        else lower_full c)
       ++ lower_from (if case_ignorable c then after_cased else cased c) rest)%list
  end.

(** UTF-8.  A byte that is not part of a well-formed sequence (a Python
    [str] has none) is carried through as the negative of its value. *)
Definition byte (a : ascii) : Z := Z.of_nat (nat_of_ascii a).

Definition chr (b : Z) : ascii := ascii_of_nat (Z.to_nat b).

Definition continuation (b : Z) : bool := (128 <=? b) && (b <? 192).

Fixpoint decode (s : string) : list Z :=
  match s with
  | EmptyString => []
  | String a0 rest =>
      let b0 := byte a0 in
      if b0 <? 128 then b0 :: decode rest
      else
        match rest with
        | String a1 rest1 =>
            let b1 := byte a1 in
            if (192 <=? b0) && (b0 <? 224) && continuation b1
            then ((b0 - 192) * 64 + (b1 - 128)) :: decode rest1
            else
              match rest1 with
              | String a2 rest2 =>
                  let b2 := byte a2 in
                  if (224 <=? b0) && (b0 <? 240) && continuation b1 && continuation b2
                  then (((b0 - 224) * 64 + (b1 - 128)) * 64 + (b2 - 128)) :: decode rest2
                  else
                    match rest2 with
                    | String a3 rest3 =>
                        let b3 := byte a3 in
                        if (240 <=? b0) && (b0 <? 248) && continuation b1
                           && continuation b2 && continuation b3
                        then ((((b0 - 240) * 64 + (b1 - 128)) * 64 + (b2 - 128)) * 64
                              + (b3 - 128)) :: decode rest3
                        else (- b0) :: decode rest
                    | EmptyString => (- b0) :: decode rest
                    end
              | EmptyString => (- b0) :: decode rest
              end
        | EmptyString => (- b0) :: decode rest
        end
  end.

Definition encode_one (c : Z) : list Z :=
  if c <? 0 then [- c]
  else if c <? 128 then [c]
  else if c <? 2048 then [192 + c / 64; 128 + c mod 64]
  else if c <? 65536 then [224 + c / 4096; 128 + (c / 64) mod 64; 128 + c mod 64]
  else [240 + c / 262144; 128 + (c / 4096) mod 64; 128 + (c / 64) mod 64; 128 + c mod 64].

Fixpoint string_of_bytes (bs : list Z) : string :=
  match bs with
  | [] => EmptyString
  | b :: bs' => String (chr b) (string_of_bytes bs')
  end.

Definition encode (cps : list Z) : string :=
  string_of_bytes (flat_map encode_one cps).

End Unicode.

(** [str.lower()]. *)
Definition lower (s : string) : string :=
  Unicode.encode (Unicode.lower_from false (Unicode.decode s)).

(** ** String helpers of the Python runtime *)

(** [',' in s] and [s.split(',')]. *)
Fixpoint contains (sep : ascii) (s : string) : bool :=
  match s with
  | EmptyString => false
  | String c s' => Ascii.eqb c sep || contains sep s'
  end.

Fixpoint split (sep : ascii) (s : string) : list string :=
  match s with
  | EmptyString => [EmptyString]
  | String c s' =>
      if Ascii.eqb c sep then EmptyString :: split sep s'
      else match split sep s' with
           | [] => [String c EmptyString]
           | piece :: rest => String c piece :: rest
           end
  end.

(** ** Helper: the alert email *)

Definition alert_subject : string :=
  "🚨 SECURITY ALERT - Failed Access Attempt with Photo".

(** [send_failed_attempt_email].  Everything that can raise inside the
    [try] block (the import, the client) ends in [return False]. *)
Definition send_failed_attempt_email (email : string)
    (latitude longitude : option float) (intruder_photo : option string) : M bool :=
  sendgrid_key <- environ SENDGRID_API_KEY ;;
  match sendgrid_key with
  | None | Some EmptyString => ret false
  | Some key =>
      importable <- environ sendgrid_importable ;;
      if negb importable then ret false
      else
        let location_info :=
          match latitude, longitude with
          | Some la, Some lo =>
              if truthy_float latitude && truthy_float longitude
              then Some (la, lo) else None
          | _, _ => None
          end in
        let photo_section := truthy_str intruder_photo in
        sender <- environ SENDER_EMAIL ;;
        now <- utcnow ;;
        let message :=
          Mail.mk (match sender with Some s => s | None => "noreply@securefolder.app" end)
                  email alert_subject (strftime_utc now)
                  location_info photo_section None in
        message <-
          match intruder_photo with
          | Some (String _ _ as photo) =>
              let photo_data :=
                if contains "," photo then nth 1 (split "," photo) "" else photo in
              stamp <- utcnow ;;
              ret (Mail.mk (Mail.from_email message) (Mail.to_emails message)
                     (Mail.subject message) (Mail.time_line message)
                     (Mail.location_info message) (Mail.photo_section message)
                     (Some (Attachment.mk photo_data
                              ("intruder_" ++ strftime_compact stamp ++ ".jpg")
                              "image/jpeg" "attachment")))
          | _ => ret message
          end ;;
        send <- environ sg_send ;;
        match send key message with
        | SendRaises => ret false
        | SendStatus status_code => ret (status_code =? 202)
        end
  end.

(** ** User routes *)

(** The JSON object [{"success": ..., "message": ...}]. *)
Module Status.
Record t : Type := mk { success : bool; message : string }.
End Status.

Definition user_response (u : User.t) : UserResponse.t :=
  UserResponse.mk (User.id u) (User.email u) (User.created_at u)
    (match User.is_premium u with Some b => b | None => false end).

(** POST /users *)
Definition create_user (user : UserCreate.t) : M UserResponse.t :=
  existing <- find_one db_users (fun u => User.email u =? UserCreate.email user)%string ;;
  match existing with
  | Some _ => raise 400 "User already exists"
  | None =>
      id <- uuid4 ;;
      let pin_hash := hash_pin (UserCreate.pin user) in
      created_at <- utcnow ;;
      let user_dict := User.mk id (UserCreate.email user) pin_hash created_at (Some false) in
      insert_one db_users user_dict ;;;
      ret (UserResponse.mk (User.id user_dict) (User.email user_dict)
             (User.created_at user_dict) false)
  end.

(** GET /users/{user_id} *)
Definition get_user (user_id : string) : M UserResponse.t :=
  user <- find_one db_users (fun u => User.id u =? user_id)%string ;;
  match user with
  | None => raise 404 "User not found"
  | Some u => ret (user_response u)
  end.

(** GET /users/by-email/{email} *)
Definition get_user_by_email (email : string) : M UserResponse.t :=
  user <- find_one db_users (fun u => User.email u =? lower email)%string ;;
  match user with
  | None => raise 404 "User not found"
  | Some u => ret (user_response u)
  end.

(** POST /users/verify-pin *)
Definition verify_user_pin (data : PinVerify.t) : M Status.t :=
  user <- find_one db_users (fun u => User.id u =? PinVerify.user_id data)%string ;;
  match user with
  | None => raise 404 "User not found"
  | Some u =>
      if verify_pin (PinVerify.pin data) (User.pin_hash u)
      then ret (Status.mk true "PIN verified")
      else ret (Status.mk false "Invalid PIN")
  end.

Definition set_pin_hash (h : string) (u : User.t) : User.t :=
  User.mk (User.id u) (User.email u) h (User.created_at u) (User.is_premium u).

(** PUT /users/{user_id}/pin *)
Definition update_pin (user_id old_pin new_pin : string) : M Status.t :=
  user <- find_one db_users (fun u => User.id u =? user_id)%string ;;
  match user with
  | None => raise 404 "User not found"
  | Some u =>
      if negb (verify_pin old_pin (User.pin_hash u))
      then raise 401 "Invalid current PIN"
      else
        update_one db_users (fun u => User.id u =? user_id)%string
                   (set_pin_hash (hash_pin new_pin)) ;;;
        ret (Status.mk true "PIN updated")
  end.

(** ** Document routes *)

(** POST /documents.  The defaults of [Document] draw the id, then
    [created_at], then [updated_at]. *)
Definition create_document (doc : DocumentCreate.t) : M Document.t :=
  id <- uuid4 ;;
  created_at <- utcnow ;;
  updated_at <- utcnow ;;
  let doc_dict :=
    Document.mk id (DocumentCreate.user_id doc) (DocumentCreate.doc_type doc)
      (DocumentCreate.name doc) (DocumentCreate.image_base64 doc)
      created_at updated_at in
  insert_one db_documents doc_dict ;;;
  ret doc_dict.

(** GET /documents/{user_id} *)
Definition get_user_documents (user_id : string) : M (list Document.t) :=
  docs <- find db_documents (fun d => Document.user_id d =? user_id)%string ;;
  ret (Mongo.to_list 100 docs).

(** GET /documents/{user_id}/{doc_type} *)
Definition get_documents_by_type (user_id doc_type : string) : M (list Document.t) :=
  docs <- find db_documents
            (fun d => (Document.user_id d =? user_id)%string
                      && (Document.doc_type d =? doc_type)%string) ;;
  ret (Mongo.to_list 100 docs).

(** DELETE /documents/{doc_id} *)
Definition delete_document (doc_id : string) : M Status.t :=
  deleted_count <- delete_one db_documents (fun d => Document.id d =? doc_id)%string ;;
  if (deleted_count =? 0)%nat
  then raise 404 "Document not found"
  else ret (Status.mk true "Document deleted").

(** The dictionary [update_data] handed to [$set]: [updated_at] is always
    there, [name] and [image_base64] only when their test passed. *)
Module UpdateData.
Record t : Type := mk {
  updated_at : datetime; name : option string; image_base64 : option string
}.
End UpdateData.

(** [$set]: the keys of [update_data] replace those of the stored
    document, the datetime among them in its BSON form. *)
Definition apply_set (upd : UpdateData.t) (d : Document.t) : Document.t :=
  Document.mk (Document.id d) (Document.user_id d) (Document.doc_type d)
    (match UpdateData.name upd with Some n => n | None => Document.name d end)
    (match UpdateData.image_base64 upd with
     | Some i => i | None => Document.image_base64 d end)
    (Document.created_at d) (bson_datetime (UpdateData.updated_at upd)).

(** PUT /documents/{doc_id} *)
Definition update_document (doc_id : string) (name image_base64 : option string)
  : M Status.t :=
  now <- utcnow ;;
  let update_data :=
    UpdateData.mk now
      (if truthy_str name then name else None)
      (if truthy_str image_base64 then image_base64 else None) in
  matched_count <- update_one db_documents (fun d => Document.id d =? doc_id)%string
                     (apply_set update_data) ;;
  if (matched_count =? 0)%nat
  then raise 404 "Document not found"
  else ret (Status.mk true "Document updated").

(** ** Officer access routes *)

(** POST /access-log *)
Definition log_officer_access (access : OfficerAccessCreate.t) : M OfficerAccess.t :=
  id <- uuid4 ;;
  timestamp <- utcnow ;;
  let access_dict :=
    OfficerAccess.mk id (OfficerAccessCreate.user_id access)
      (OfficerAccessCreate.officer_name access)
      (OfficerAccessCreate.badge_number access) timestamp
      (OfficerAccessCreate.latitude access) (OfficerAccessCreate.longitude access)
      (OfficerAccessCreate.address access)
      (OfficerAccessCreate.documents_viewed access) in
  insert_one db_access_logs access_dict ;;;
  ret access_dict.

(** GET /access-log/{user_id} *)
Definition get_access_logs (user_id : string) : M (list OfficerAccess.t) :=
  logs <- find db_access_logs (fun a => OfficerAccess.user_id a =? user_id)%string ;;
  ret (Mongo.to_list 1000 (Mongo.sort_desc OfficerAccess.timestamp logs)).

(** One entry of the export.  Every stored timestamp is a [datetime] (the
    only writer of the collection is [log_officer_access]), so the
    [isinstance] test of the source always takes its first branch. *)
Module ExportEntry.
Record t : Type := mk {
  officer_name : string; badge_number : string; timestamp : string;
  latitude : option float; longitude : option float;
  address : option string; documents_viewed : list string
}.
End ExportEntry.

Module ExportData.
Record t : Type := mk {
  user_email : string; export_date : string;
  total_accesses : nat; logs : list ExportEntry.t
}.
End ExportData.

Definition export_entry (log : OfficerAccess.t) : ExportEntry.t :=
  ExportEntry.mk (OfficerAccess.officer_name log) (OfficerAccess.badge_number log)
    (isoformat (OfficerAccess.timestamp log))
    (OfficerAccess.latitude log) (OfficerAccess.longitude log)
    (OfficerAccess.address log) (OfficerAccess.documents_viewed log).

(** GET /access-log/{user_id}/export *)
Definition export_access_logs (user_id : string) : M ExportData.t :=
  found <- find db_access_logs (fun a => OfficerAccess.user_id a =? user_id)%string ;;
  let logs := Mongo.to_list 1000 (Mongo.sort_desc OfficerAccess.timestamp found) in
  user <- find_one db_users (fun u => User.id u =? user_id)%string ;;
  now <- utcnow ;;
  let export_data :=
    ExportData.mk
      (match user with Some u => User.email u | None => "Unknown" end)
      (isoformat now) (List.length logs) [] in
  ret (fold_left
         (fun data log =>
            ExportData.mk (ExportData.user_email data) (ExportData.export_date data)
              (ExportData.total_accesses data)
              (ExportData.logs data ++ [export_entry log])%list)
         logs export_data).

(** ** Failed attempt routes *)

(** POST /failed-attempt *)
Definition log_failed_attempt (attempt : FailedAttemptCreate.t) : M Status.t :=
  id <- uuid4 ;;
  timestamp <- utcnow ;;
  let attempt_dict :=
    FailedAttempt.mk id (FailedAttemptCreate.user_id attempt) timestamp
      (FailedAttemptCreate.latitude attempt) (FailedAttemptCreate.longitude attempt)
      None in
  insert_one db_failed_attempts attempt_dict ;;;
  ret (Status.mk true "Failed attempt logged").

(** POST /failed-attempt/alert *)
Definition send_failed_alert (data : EmailAlertRequest.t) : M Status.t :=
  id <- uuid4 ;;
  timestamp <- utcnow ;;
  let attempt_dict :=
    FailedAttempt.mk id (EmailAlertRequest.user_id data) timestamp
      (EmailAlertRequest.latitude data) (EmailAlertRequest.longitude data)
      (Some (is_not_None (EmailAlertRequest.intruder_photo data))) in
  match EmailAlertRequest.intruder_photo data with
  | Some (String _ _ as photo) =>
      photo_id <- uuid4 ;;
      photo_timestamp <- utcnow ;;
      let photo_record :=
        IntruderPhoto.mk photo_id (FailedAttempt.id attempt_dict)
          (EmailAlertRequest.user_id data) photo_timestamp photo in
      insert_one db_intruder_photos photo_record
  | _ => ret tt
  end ;;;
  insert_one db_failed_attempts attempt_dict ;;;
  success <- send_failed_attempt_email (EmailAlertRequest.email data)
               (EmailAlertRequest.latitude data) (EmailAlertRequest.longitude data)
               (EmailAlertRequest.intruder_photo data) ;;
  ret (Status.mk success
         (if success then "Security alert with photo sent"
          else "Failed to send alert (check SendGrid API key)")).

(** The reduced dictionary [get_failed_attempts] answers with. *)
Module AttemptView.
Record t : Type := mk {
  id : string; timestamp : datetime;
  latitude : option float; longitude : option float
}.
End AttemptView.

Definition attempt_view (a : FailedAttempt.t) : AttemptView.t :=
  AttemptView.mk (FailedAttempt.id a) (FailedAttempt.timestamp a)
    (FailedAttempt.latitude a) (FailedAttempt.longitude a).

(** GET /failed-attempts/{user_id} *)
Definition get_failed_attempts (user_id : string) : M (list AttemptView.t) :=
  found <- find db_failed_attempts (fun a => FailedAttempt.user_id a =? user_id)%string ;;
  let attempts := Mongo.to_list 100 (Mongo.sort_desc FailedAttempt.timestamp found) in
  ret (map attempt_view attempts).

(** ** Health check *)

Definition root : M (string * string) := ret ("Secure Folder API", "running").

Definition health_check : M (string * string) :=
  now <- utcnow ;; ret ("healthy", isoformat now).

(** ** The router

    One constructor per route of [api_router]; [handle] is what the
    application does with one request. *)

Inductive Request : Type :=
| POST_users (user : UserCreate.t)
| GET_user (user_id : string)
| GET_user_by_email (email : string)
| POST_verify_pin (data : PinVerify.t)
| PUT_pin (user_id old_pin new_pin : string)
| POST_documents (doc : DocumentCreate.t)
| GET_documents (user_id : string)
| GET_documents_by_type (user_id doc_type : string)
| DELETE_document (doc_id : string)
| PUT_document (doc_id : string) (name image_base64 : option string)
| POST_access_log (access : OfficerAccessCreate.t)
| GET_access_log (user_id : string)
| GET_access_log_export (user_id : string)
| POST_failed_attempt (attempt : FailedAttemptCreate.t)
| POST_failed_attempt_alert (data : EmailAlertRequest.t)
| GET_failed_attempts (user_id : string)
| GET_root
| GET_health.

Inductive Response : Type :=
| RUser (r : UserResponse.t)
| RStatus (r : Status.t)
| RDocument (r : Document.t)
| RDocuments (r : list Document.t)
| RAccess (r : OfficerAccess.t)
| RAccessList (r : list OfficerAccess.t)
| RExport (r : ExportData.t)
| RAttempts (r : list AttemptView.t)
| RInfo (r : string * string).

Definition respond {A : Type} (wrap : A -> Response) (m : M A) : M Response :=
  a <- m ;; ret (wrap a).

Definition handle (req : Request) : M Response :=
  match req with
  | POST_users user => respond RUser (create_user user)
  | GET_user user_id => respond RUser (get_user user_id)
  | GET_user_by_email email => respond RUser (get_user_by_email email)
  | POST_verify_pin data => respond RStatus (verify_user_pin data)
  | PUT_pin user_id old_pin new_pin => respond RStatus (update_pin user_id old_pin new_pin)
  | POST_documents doc => respond RDocument (create_document doc)
  | GET_documents user_id => respond RDocuments (get_user_documents user_id)
  | GET_documents_by_type user_id doc_type =>
      respond RDocuments (get_documents_by_type user_id doc_type)
  | DELETE_document doc_id => respond RStatus (delete_document doc_id)
  | PUT_document doc_id name image_base64 =>
      respond RStatus (update_document doc_id name image_base64)
  | POST_access_log access => respond RAccess (log_officer_access access)
  | GET_access_log user_id => respond RAccessList (get_access_logs user_id)
  | GET_access_log_export user_id => respond RExport (export_access_logs user_id)
  | POST_failed_attempt attempt => respond RStatus (log_failed_attempt attempt)
  | POST_failed_attempt_alert data => respond RStatus (send_failed_alert data)
  | GET_failed_attempts user_id => respond RAttempts (get_failed_attempts user_id)
  | GET_root => respond RInfo root
  | GET_health => respond RInfo health_check
  end.

(** Running a sequence of requests, keeping the world. *)
Fixpoint run (e : Env) (reqs : list Request) (w : World) : World :=
  match reqs with
  | [] => w
  | r :: reqs' => run e reqs' (snd (handle r e w))
  end.

(** ** Vocabulary of the statements *)

(** The user a lookup by id finds: the first one in the collection. *)
Definition user_by_id (w : World) (user_id : string) : option User.t :=
  Mongo.find_one (fun u => User.id u =? user_id)%string (users (db w)).

(** The document a request on [doc_id] acts on. *)
Definition document_by_id (w : World) (doc_id : string) : option Document.t :=
  Mongo.find_one (fun d => Document.id d =? doc_id)%string (documents (db w)).

(** The record [send_failed_alert] adds to [db.failed_attempts], and the
    records it adds to [db.intruder_photos]. *)
Definition alert_attempt (e : Env) (w : World) (data : EmailAlertRequest.t)
  : FailedAttempt.t :=
  FailedAttempt.mk (uuid_source e (uuid_calls w)) (EmailAlertRequest.user_id data)
    (bson_datetime (clock e (clock_calls w)))
    (EmailAlertRequest.latitude data) (EmailAlertRequest.longitude data)
    (Some (is_not_None (EmailAlertRequest.intruder_photo data))).

Definition alert_photos (e : Env) (w : World) (data : EmailAlertRequest.t)
  : list IntruderPhoto.t :=
  match EmailAlertRequest.intruder_photo data with
  | Some (String _ _ as photo) =>
      [IntruderPhoto.mk (uuid_source e (S (uuid_calls w)))
         (uuid_source e (uuid_calls w)) (EmailAlertRequest.user_id data)
         (bson_datetime (clock e (S (clock_calls w)))) photo]
  | _ => []
  end.

Definition alert_message (success : bool) : string :=
  if success then "Security alert with photo sent"
  else "Failed to send alert (check SendGrid API key)".

(** What [update_document] leaves in a field: the supplied value when it
    passed the truth test of the handler, the stored one otherwise. *)
Definition written (supplied : option string) (stored : string) : string :=
  match supplied with
  | Some (String _ _ as v) => v
  | _ => stored
  end.

Definition updated_document (now : datetime) (name image_base64 : option string)
    (d : Document.t) : Document.t :=
  Document.mk (Document.id d) (Document.user_id d) (Document.doc_type d)
    (written name (Document.name d))
    (written image_base64 (Document.image_base64 d))
    (Document.created_at d) (bson_datetime now).

(** The collections other than [db.documents]. *)
Definition same_but_documents (a b : DB) : Prop :=
  users a = users b /\ access_logs a = access_logs b /\
  failed_attempts a = failed_attempts b /\ intruder_photos a = intruder_photos b.

(** Ordered by timestamp descending: every entry is at least as recent as
    all the entries after it. *)
Definition newest_first {A : Type} (key : A -> datetime) (l : list A) : Prop :=
  StronglySorted (fun a b => dt_leb (key b) (key a) = true) l.

(** What a listing route answers with: the matching documents, newest
    first, cut at [cap]. *)
Definition listing {A : Type} (key : A -> datetime) (cap : nat)
    (q : A -> bool) (c : list A) : list A :=
  Mongo.to_list cap (Mongo.sort_desc key (Mongo.find q c)).

(** The records that successive POST /failed-attempt and POST /access-log
    requests append, from the [u]-th id and the [c]-th clock reading on. *)
Fixpoint logged_attempts (e : Env) (u c : nat) (reqs : list FailedAttemptCreate.t)
  : list FailedAttempt.t :=
  match reqs with
  | [] => []
  | r :: reqs' =>
      FailedAttempt.mk (uuid_source e u) (FailedAttemptCreate.user_id r)
        (bson_datetime (clock e c))
        (FailedAttemptCreate.latitude r) (FailedAttemptCreate.longitude r) None
      :: logged_attempts e (S u) (S c) reqs'
  end.

Fixpoint logged_accesses (e : Env) (u c : nat) (reqs : list OfficerAccessCreate.t)
  : list OfficerAccess.t :=
  match reqs with
  | [] => []
  | r :: reqs' =>
      OfficerAccess.mk (uuid_source e u) (OfficerAccessCreate.user_id r)
        (OfficerAccessCreate.officer_name r) (OfficerAccessCreate.badge_number r)
        (bson_datetime (clock e c))
        (OfficerAccessCreate.latitude r) (OfficerAccessCreate.longitude r)
        (OfficerAccessCreate.address r) (OfficerAccessCreate.documents_viewed r)
      :: logged_accesses e (S u) (S c) reqs'
  end.

(** [l] is a listing of the documents of [c] that satisfy [q]: newest
    first, as many as the cap allows, and the newest ones: the matching
    documents of [c] are those of [l] and some others, none of which is
    more recent than any document of [l].  So [l] has nothing but matching
    documents of [c], and all of them when they fit under the cap. *)
Definition listed_from {A : Type} (key : A -> datetime) (cap : nat)
    (q : A -> bool) (c l : list A) : Prop :=
  newest_first key l /\
  List.length l = Nat.min cap (List.length (filter q c)) /\
  (exists rest,
     Permutation (filter q c) (l ++ rest) /\
     forall x y, In x l -> In y rest -> dt_leb (key y) (key x) = true) /\
  (forall x, In x l -> In x c /\ q x = true) /\
  ((List.length (filter q c) <= cap)%nat -> Permutation l (filter q c)).

Definition access_of (user_id : string) (a : OfficerAccess.t) : bool :=
  (OfficerAccess.user_id a =? user_id)%string.

Definition attempt_of (user_id : string) (a : FailedAttempt.t) : bool :=
  (FailedAttempt.user_id a =? user_id)%string.

(** The user [create_user] stores: the dictionary it built, in BSON form. *)
Definition new_user (e : Env) (w : World) (user : UserCreate.t) : User.t :=
  User.mk (uuid_source e (uuid_calls w)) (UserCreate.email user)
    (hash_pin (UserCreate.pin user)) (bson_datetime (clock e (clock_calls w)))
    (Some false).

(** An alert request that carries the empty string as its photo. *)
Definition empty_photo_alert : EmailAlertRequest.t :=
  EmailAlertRequest.mk "u1" "alice@example.com" None None (Some "").

Definition photo_alert : EmailAlertRequest.t :=
  EmailAlertRequest.mk "u1" "alice@example.com" (Some 48.5%float) (Some 2.25%float)
    (Some "data:image/jpeg;base64,/9j/4AAQ").

(** The string made of [n] times the digit 1. *)
Fixpoint ones (n : nat) : string :=
  match n with
  | O => ""
  | S n' => String "1" (ones n')
  end.

(** The ids of the stored documents are pairwise distinct and were all
    drawn from [uuid4]. *)
Definition document_ids_fresh (e : Env) (w : World) : Prop :=
  NoDup (map Document.id (documents (db w))) /\
  forall d, In d (documents (db w)) ->
            exists n, (n < uuid_calls w)%nat /\ Document.id d = uuid_source e n.

(** [uuid4] never gives the same value twice. *)
Definition uuid_unique (e : Env) : Prop :=
  forall m n, uuid_source e m = uuid_source e n -> m = n.

(** What one request can do to [db.documents]. *)
Inductive documents_step (e : Env) (w w' : World) : Prop :=
| docs_same : documents (db w') = documents (db w) -> documents_step e w w'
| docs_added (d : Document.t) :
    documents (db w') = (documents (db w) ++ [d])%list ->
    Document.id d = uuid_source e (uuid_calls w) ->
    (uuid_calls w < uuid_calls w')%nat ->
    documents_step e w w'
| docs_deleted (q : Document.t -> bool) :
    documents (db w') = snd (Mongo.delete_one q (documents (db w))) ->
    documents_step e w w'
| docs_updated (q : Document.t -> bool) (upd : Document.t -> Document.t) :
    (forall d, Document.id (upd d) = Document.id d) ->
    documents (db w') = snd (Mongo.update_one q upd (documents (db w))) ->
    documents_step e w w'.

(** The collections other than [db.users], [db.access_logs] and
    [db.failed_attempts]. *)
Definition same_but_users (a b : DB) : Prop :=
  documents a = documents b /\ access_logs a = access_logs b /\
  failed_attempts a = failed_attempts b /\ intruder_photos a = intruder_photos b.

Definition same_but_access_logs (a b : DB) : Prop :=
  users a = users b /\ documents a = documents b /\
  failed_attempts a = failed_attempts b /\ intruder_photos a = intruder_photos b.

Definition same_but_failed_attempts (a b : DB) : Prop :=
  users a = users b /\ documents a = documents b /\
  access_logs a = access_logs b /\ intruder_photos a = intruder_photos b.

Definition same_but_alerts (a b : DB) : Prop :=
  users a = users b /\ documents a = documents b /\ access_logs a = access_logs b.

(** What of a stored user no route ever rewrites. *)
Definition user_identity (u : User.t) : string * string * datetime * option bool :=
  (User.id u, User.email u, User.created_at u, User.is_premium u).

(** [l'] is [l] with records added at the end. *)
Definition extends {A : Type} (l l' : list A) : Prop := exists more, l' = (l ++ more)%list.

(** The ids of a collection are pairwise distinct and were all drawn from
    the first [u] values of [uuid4]. *)
Definition ids_fresh {A : Type} (id : A -> string) (e : Env) (u : nat) (c : list A)
  : Prop :=
  NoDup (map id c) /\
  forall d, In d c -> exists n, (n < u)%nat /\ id d = uuid_source e n.

(** What one request can do to a collection while [uuid4] goes from its
    [u]-th to its [u']-th value. *)
Inductive coll_step {A : Type} (id : A -> string) (e : Env) (u u' : nat)
    (c c' : list A) : Prop :=
| step_same : c' = c -> coll_step id e u u' c c'
| step_added (d : A) (k : nat) :
    c' = (c ++ [d])%list -> id d = uuid_source e k -> (u <= k < u')%nat ->
    coll_step id e u u' c c'
| step_deleted (q : A -> bool) :
    c' = snd (Mongo.delete_one q c) -> coll_step id e u u' c c'
| step_updated (q : A -> bool) (upd : A -> A) :
    (forall d, id (upd d) = id d) -> c' = snd (Mongo.update_one q upd c) ->
    coll_step id e u u' c c'.

(** Every collection has pairwise distinct ids. *)
Definition ids_distinct (d : DB) : Prop :=
  NoDup (map User.id (users d)) /\
  NoDup (map Document.id (documents d)) /\
  NoDup (map OfficerAccess.id (access_logs d)) /\
  NoDup (map FailedAttempt.id (failed_attempts d)) /\
  NoDup (map IntruderPhoto.id (intruder_photos d)).

(** Every stored intruder photo points to a stored failed attempt of the
    same user that is flagged as having a photo. *)
Definition photos_linked (d : DB) : Prop :=
  forall p, In p (intruder_photos d) ->
    exists a, In a (failed_attempts d) /\
              FailedAttempt.id a = IntruderPhoto.attempt_id p /\
              FailedAttempt.user_id a = IntruderPhoto.user_id p /\
              FailedAttempt.has_photo a = Some true.

Definition document_of (user_id : string) (d : Document.t) : bool :=
  (Document.user_id d =? user_id)%string.

Definition document_of_type (user_id doc_type : string) (d : Document.t) : bool :=
  (Document.user_id d =? user_id)%string && (Document.doc_type d =? doc_type)%string.

(** A user with 100 stored documents. *)
Definition world_full : World :=
  run (mkEnv (fun n => decimal 8 (Z.of_nat n) "")
         (fun n => Datetime 2024 1 15 10 ((Z.of_nat n / 60) mod 60) (Z.of_nat n mod 60) 0)
         None None true (fun _ _ => SendRaises))
    (map POST_documents (repeat (DocumentCreate.mk "u1" "id" "Passport" "aGVsbG8=") 100))
    (mkWorld empty_db 0 0).

(** The content of the attachment: what follows the first comma of a data
    URL, up to the next comma; the whole photo when it has no comma. *)
Definition photo_data (photo : string) : string :=
  if contains "," photo then nth 1 (split "," photo) "" else photo.

(** The message [send_failed_attempt_email] hands to the provider. *)
Definition alert_mail (e : Env) (w : World) (email : string)
    (latitude longitude : option float) (intruder_photo : option string) : Mail.t :=
  Mail.mk
    (match SENDER_EMAIL e with Some s => s | None => "noreply@securefolder.app" end)
    email alert_subject (strftime_utc (clock e (clock_calls w)))
    (match latitude, longitude with
     | Some la, Some lo =>
         if truthy_float latitude && truthy_float longitude then Some (la, lo) else None
     | _, _ => None
     end)
    (truthy_str intruder_photo)
    (match intruder_photo with
     | Some (String _ _ as photo) =>
         Some (Attachment.mk (photo_data photo)
                 ("intruder_" ++ strftime_compact (clock e (S (clock_calls w))) ++ ".jpg")
                 "image/jpeg" "attachment")
     | _ => None
     end).

(** What the handler makes of the provider's answer. *)
Definition accepted (o : send_outcome) : bool :=
  match o with
  | SendRaises => false
  | SendStatus status_code => status_code =? 202
  end.

(** A lower-case hexadecimal digit. *)
Definition hex_digit (c : ascii) : bool :=
  let n := nat_of_ascii c in
  ((48 <=? n) && (n <=? 57) || (97 <=? n) && (n <=? 102))%nat.

Fixpoint all_chars (p : ascii -> bool) (s : string) : bool :=
  match s with
  | EmptyString => true
  | String c s' => p c && all_chars p s'
  end.

(** An upper-case ASCII letter. *)
Definition ascii_upper (c : ascii) : bool :=
  let n := nat_of_ascii c in ((65 <=? n) && (n <=? 90))%nat.

(** What [str.lower()] may leave in a string: a code point other than the
    letters A to Z, or a carried byte. *)
Definition lowered_item (x : Z) : Prop :=
  (-255 <= x <= -128) \/ (0 <= x < 2097152 /\ ~ (65 <= x <= 90)).

Definition decoded_item (x : Z) : Prop :=
  (-255 <= x <= -128) \/ (0 <= x < 2097152).

(** A byte other than the letters A to Z. *)
Definition plain_byte (b : Z) : Prop := 0 <= b <= 255 /\ ~ (65 <= b <= 90).

(** A row of the lower-case table maps into the code points, away from
    the letters A to Z. *)
Definition row_lowers (r : Z * Z * Z * Z) : bool :=
  let '(lo, hi, delta, step) := r in
  (0 <=? lo + delta) && (hi + delta <? 2097152)
  && ((hi + delta <? 65) || (90 <? lo + delta)).

(** Sample values for closed instances. *)
Definition t0 : datetime := Datetime 2024 1 15 10 30 0 0.

(** A clock that advances by one second per reading. *)
Definition tick (n : nat) : datetime :=
  let s := Z.of_nat n in
  Datetime 2024 1 15 (10 + s / 3600) ((s / 60) mod 60) (s mod 60) 250000.

(** An id source that never repeats. *)
Definition env_unary : Env :=
  mkEnv ones tick None None true (fun _ _ => SendRaises).

(** No SendGrid key configured. *)
Definition numbered (n : nat) : string := decimal 8 (Z.of_nat n) "".

Definition env0 : Env :=
  mkEnv numbered tick None None true (fun _ _ => SendStatus 202).

(** A clock that reads microseconds. *)
Definition env_micro : Env :=
  mkEnv numbered
    (fun n => Datetime 2024 1 15 10 30 (Z.of_nat n mod 60) 250123)
    None None true (fun _ _ => SendRaises).

(** A key, and a provider that accepts every message. *)
Definition env_ok : Env :=
  mkEnv numbered tick (Some "SG.key") None true (fun _ _ => SendStatus 202).

(** A key, and a provider that raises. *)
Definition env_down : Env :=
  mkEnv numbered tick (Some "SG.key") None true (fun _ _ => SendRaises).

Definition world0 : World := mkWorld empty_db 0 0.

Definition three_attempts : list FailedAttemptCreate.t :=
  [FailedAttemptCreate.mk "u1" None None;
   FailedAttemptCreate.mk "u1" (Some 48.5%float) (Some 2.25%float);
   FailedAttemptCreate.mk "u1" None None].

Definition two_accesses : list OfficerAccessCreate.t :=
  [OfficerAccessCreate.mk "u1" "Ann Lee" "B-17" None None None ["d1"];
   OfficerAccessCreate.mk "u1" "Raj Rao" "B-42" None None (Some "Main St") []].

(** A user with 1001 logged officer accesses. *)
Definition world_busy : World :=
  run env0
    (map POST_access_log
       (repeat (OfficerAccessCreate.mk "u1" "Ann Lee" "B-17" None None None []) 1001))
    world0.

Definition passport : Document.t :=
  Document.mk "d1" "u1" "id" "Passport" "aGVsbG8=" t0 t0.

Definition world_passport : World :=
  mkWorld (mkDB [] [passport] [] [] []) 1 2.


Definition alice : User.t :=
  User.mk "u1" "alice@example.com" (hash_pin "1234") t0 (Some false).

Definition world_alice : World :=
  mkWorld (mkDB [alice] [] [] [] []) 1 1.

Definition bob : User.t :=
  User.mk "u2" "bob@example.com" (hash_pin "2468") t0 (Some false).

Definition world_two : World :=
  mkWorld (mkDB [alice; bob] [] [] [] []) 2 2.


(** * Properties *)

(** ** The digest against the test vectors of hashlib *)

Example hash_pin_empty :
  hash_pin "" = "e3b0c44298fc1c149afbf4c8996fb92427ae41e4649b934ca495991b7852b855".
Proof. vm_compute. reflexivity. Qed.

Example hash_pin_abc :
  hash_pin "abc" = "ba7816bf8f01cfea414140de5dae2223b00361a396177a9cb410ff61f20015ad".
Proof. vm_compute. reflexivity. Qed.

Example hash_pin_1234 :
  hash_pin "1234" = "03ac674216f3e15c761ee1a5e255f067953623c8b388b4459e13f978d7c846f4".
Proof. vm_compute. reflexivity. Qed.

Example hash_pin_two_blocks :
  hash_pin "aaaaaaaaaaaaaaaaaaaaaaaaaaaaaaaaaaaaaaaaaaaaaaaaaaaaaaaa" =
  "b35439a4ac6f0948b6d6f9e3c6af0f5f590ce20f1bde7090ef7970686ec6738a".
Proof. vm_compute. reflexivity. Qed.

(** ** The order on timestamps *)

Lemma lex_leb_total (x y : list Z) : lex_leb x y = true \/ lex_leb y x = true.
Proof.
  revert y; induction x as [|a x IH]; intros [|b y]; simpl; auto.
  destruct (Z.ltb_spec a b); [now left|].
  destruct (Z.ltb_spec b a); [now right|].
  assert (a = b) by lia; subst b.
  rewrite Z.eqb_refl; simpl. apply IH.
Qed.

Lemma lex_leb_trans (x y z : list Z) :
  lex_leb x y = true -> lex_leb y z = true -> lex_leb x z = true.
Proof.
  revert y z; induction x as [|a x IH]; intros [|b y] [|c z]; simpl; auto;
    try discriminate.
  intros Hxy Hyz.
  apply orb_true_iff in Hxy; apply orb_true_iff in Hyz; apply orb_true_iff.
  destruct Hxy as [Hab|Hab]; destruct Hyz as [Hbc|Hbc];
    try apply andb_true_iff in Hab; try apply andb_true_iff in Hbc;
    repeat match goal with
           | H : _ /\ _ |- _ => destruct H
           | H : (_ <? _) = true |- _ => apply Z.ltb_lt in H
           | H : (_ =? _) = true |- _ => apply Z.eqb_eq in H
           end.
  - left; apply Z.ltb_lt; lia.
  - left; apply Z.ltb_lt; lia.
  - left; apply Z.ltb_lt; lia.
  - right; apply andb_true_iff; split; [apply Z.eqb_eq; lia|eauto].
Qed.

Lemma dt_leb_total (a b : datetime) : dt_leb a b = true \/ dt_leb b a = true.
Proof. apply lex_leb_total. Qed.

Lemma dt_leb_trans (a b c : datetime) :
  dt_leb a b = true -> dt_leb b c = true -> dt_leb a c = true.
Proof. apply lex_leb_trans. Qed.

Lemma dt_leb_refl (a : datetime) : dt_leb a a = true.
Proof. destruct (dt_leb_total a a); assumption. Qed.

(** ** The collection primitives *)

Section MongoFacts.
Context {A : Type}.
Implicit Types (q : A -> bool) (c : list A).

Lemma find_one_none q c :
  Mongo.find_one q c = None <-> (forall d, In d c -> q d = false).
Proof.
  unfold Mongo.find_one; split.
  - intros H d Hd. exact (find_none q c H d Hd).
  - induction c as [|x c IH]; simpl; intros H; [reflexivity|].
    rewrite (H x (or_introl eq_refl)). apply IH; intros d Hd; apply H; now right.
Qed.

Lemma find_one_some q c d :
  Mongo.find_one q c = Some d ->
  exists c1 c2, c = (c1 ++ d :: c2)%list /\ q d = true /\
                (forall x, In x c1 -> q x = false).
Proof.
  unfold Mongo.find_one; induction c as [|x c IH]; simpl; [discriminate|].
  destruct (q x) eqn:Hx.
  - intros [= ->]. exists [], c; repeat split; auto. intros y [].
  - intros H; destruct (IH H) as (c1 & c2 & -> & Hd & Hc1).
    exists (x :: c1), c2; repeat split; auto.
    intros y [<-|Hy]; auto.
Qed.

Lemma delete_one_none q c :
  Mongo.find_one q c = None -> Mongo.delete_one q c = (O, c).
Proof.
  unfold Mongo.find_one; induction c as [|x c IH]; simpl; [reflexivity|].
  destruct (q x); [discriminate|]. intros H; now rewrite (IH H).
Qed.

Lemma delete_one_some q c d :
  Mongo.find_one q c = Some d ->
  exists c1 c2, c = (c1 ++ d :: c2)%list /\ (forall x, In x c1 -> q x = false) /\
                Mongo.delete_one q c = (1%nat, (c1 ++ c2)%list).
Proof.
  unfold Mongo.find_one; induction c as [|x c IH]; simpl; [discriminate|].
  destruct (q x) eqn:Hx.
  - intros [= ->]. exists [], c; repeat split; auto. intros y [].
  - intros H; destruct (IH H) as (c1 & c2 & -> & Hc1 & ->).
    exists (x :: c1), c2; repeat split; auto.
    intros y [<-|Hy]; auto.
Qed.

Lemma update_one_none q (upd : A -> A) c :
  Mongo.find_one q c = None -> Mongo.update_one q upd c = (O, c).
Proof.
  unfold Mongo.find_one; induction c as [|x c IH]; simpl; [reflexivity|].
  destruct (q x); [discriminate|]. intros H; now rewrite (IH H).
Qed.

Lemma update_one_some q (upd : A -> A) c d :
  Mongo.find_one q c = Some d ->
  exists c1 c2, c = (c1 ++ d :: c2)%list /\ (forall x, In x c1 -> q x = false) /\
                Mongo.update_one q upd c = (1%nat, (c1 ++ upd d :: c2)%list).
Proof.
  unfold Mongo.find_one; induction c as [|x c IH]; simpl; [discriminate|].
  destruct (q x) eqn:Hx.
  - intros [= ->]. exists [], c; repeat split; auto. intros y [].
  - intros H; destruct (IH H) as (c1 & c2 & -> & Hc1 & ->).
    exists (x :: c1), c2; repeat split; auto.
    intros y [<-|Hy]; auto.
Qed.

Lemma update_one_ext q (f g : A -> A) c :
  (forall d, f d = g d) -> Mongo.update_one q f c = Mongo.update_one q g c.
Proof.
  intros H; induction c as [|x c IH]; simpl; [reflexivity|].
  now rewrite IH, H.
Qed.

Lemma find_one_app_first q c1 d c2 :
  (forall x, In x c1 -> q x = false) -> q d = true ->
  Mongo.find_one q (c1 ++ d :: c2) = Some d.
Proof.
  unfold Mongo.find_one; induction c1 as [|x c1 IH]; simpl; intros H Hd.
  - now rewrite Hd.
  - rewrite (H x (or_introl eq_refl)). apply IH; auto.
Qed.

End MongoFacts.

(** ** Running the handlers *)

Ltac unfold_monad :=
  unfold respond, find_one, insert_one, delete_one, update_one, find,
         read, write, uuid4, utcnow, environ, bind, ret, raise in *;
  simpl in *.

Lemma verify_pin_true (pin hashed : string) :
  verify_pin pin hashed = true <-> hash_pin pin = hashed.
Proof. unfold verify_pin. apply String.eqb_eq. Qed.

Lemma verify_user_pin_run (e : Env) (w : World) (data : PinVerify.t) :
  verify_user_pin data e w =
  match user_by_id w (PinVerify.user_id data) with
  | None => (HTTPException 404 "User not found", w)
  | Some u =>
      (Ok (if verify_pin (PinVerify.pin data) (User.pin_hash u)
           then Status.mk true "PIN verified"
           else Status.mk false "Invalid PIN"), w)
  end.
Proof.
  unfold verify_user_pin, user_by_id; unfold_monad.
  destruct (Mongo.find_one _ _); [destruct (verify_pin _ _)|]; reflexivity.
Qed.

Lemma user_by_id_absent (w : World) (user_id : string) :
  (forall u, In u (users (db w)) -> User.id u <> user_id) ->
  user_by_id w user_id = None.
Proof.
  intros H. apply find_one_none. intros u Hu.
  apply String.eqb_neq. now apply H.
Qed.

(** C3. PIN verification on an existing user answers success exactly when
    the digest of the submitted pin is the stored [pin_hash] (and
    [verify_pin pin hashed] holds exactly when [hash_pin pin = hashed]); with
    no user of that id it fails with 404. *)
Theorem verify_user_pin_correct (e : Env) (w : World) (data : PinVerify.t) :
  (forall pin hashed, verify_pin pin hashed = true <-> hash_pin pin = hashed) /\
  (forall u, user_by_id w (PinVerify.user_id data) = Some u ->
     exists r, verify_user_pin data e w = (Ok r, w) /\
               (Status.success r = true <->
                hash_pin (PinVerify.pin data) = User.pin_hash u)) /\
  ((forall u, In u (users (db w)) -> User.id u <> PinVerify.user_id data) ->
     verify_user_pin data e w = (HTTPException 404 "User not found", w)).
Proof.
  split; [exact verify_pin_true|split].
  - intros u Hu. rewrite verify_user_pin_run, Hu.
    eexists; split; [reflexivity|].
    rewrite <- verify_pin_true.
    destruct (verify_pin _ _); simpl; split; congruence.
  - intros H. rewrite verify_user_pin_run, (user_by_id_absent _ _ H). reflexivity.
Qed.

Lemma verify_user_pin_correct_witness :
  (exists r, verify_user_pin (PinVerify.mk "u1" "1234") env0 world_alice
             = (Ok r, world_alice) /\
             (Status.success r = true <-> hash_pin "1234" = User.pin_hash alice)) /\
  verify_user_pin (PinVerify.mk "u2" "1234") env0 world_alice
  = (HTTPException 404 "User not found", world_alice).
Proof.
  split.
  - apply (proj1 (proj2 (verify_user_pin_correct env0 world_alice
                           (PinVerify.mk "u1" "1234")))).
    reflexivity.
  - apply (proj2 (proj2 (verify_user_pin_correct env0 world_alice
                           (PinVerify.mk "u2" "1234")))).
    simpl. intros u [<-|[]]. discriminate.
Defined.

(** ** What a request does to the ledger of failed attempts *)

(** Case analysis on the innermost scrutinee first. *)
Ltac break_match :=
  repeat match goal with
         | |- context [match ?x with _ => _ end] =>
             lazymatch x with
             | context [match _ with _ => _ end] => fail
             | _ => destruct x eqn:?; simpl
             end
         end.

Lemma send_failed_attempt_email_total (e : Env) (w : World) (email : string)
    (latitude longitude : option float) (intruder_photo : option string) :
  exists success n,
    send_failed_attempt_email email latitude longitude intruder_photo e w
    = (Ok success, mkWorld (db w) (uuid_calls w) (n + clock_calls w)).
Proof.
  unfold send_failed_attempt_email; unfold_monad.
  destruct (SENDGRID_API_KEY e) as [[|c key]|]; simpl;
    try (exists false, 0%nat; destruct w; reflexivity).
  destruct (sendgrid_importable e); simpl;
    try (exists false, 0%nat; destruct w; reflexivity).
  destruct intruder_photo as [[|c' photo]|]; simpl;
    destruct (sg_send e _ _); simpl; eauto.
  all: try (eexists _, 1%nat; reflexivity).
  all: try (eexists _, 2%nat; reflexivity).
Qed.

Arguments send_failed_attempt_email : simpl never.

Lemma send_failed_alert_run (e : Env) (w : World) (data : EmailAlertRequest.t) :
  exists success w',
    send_failed_alert data e w = (Ok (Status.mk success (alert_message success)), w') /\
    db w' = mkDB (users (db w)) (documents (db w)) (access_logs (db w))
              (failed_attempts (db w) ++ [alert_attempt e w data])
              (intruder_photos (db w) ++ alert_photos e w data).
Proof.
  unfold send_failed_alert, alert_attempt, alert_photos.
  destruct data as [user_id email latitude longitude [[|c photo]|]]; unfold_monad.
  all: match goal with
       | |- context [send_failed_attempt_email ?m ?la ?lo ?ph ?e1 ?w1] =>
           destruct (send_failed_attempt_email_total e1 w1 m la lo ph)
             as (success & n & ->)
       end.
  all: exists success; eexists; split; [reflexivity|]; simpl.
  all: try rewrite app_nil_r; reflexivity.
Qed.

Lemma handle_failed_attempts (e : Env) (w : World) (req : Request) :
  match req with
  | POST_failed_attempt _ | POST_failed_attempt_alert _ =>
      exists a, failed_attempts (db (snd (handle req e w)))
                = (failed_attempts (db w) ++ [a])%list
  | _ => failed_attempts (db (snd (handle req e w))) = failed_attempts (db w)
  end.
Proof.
  destruct req; simpl.
  all: try (cbv delta [create_user get_user get_user_by_email verify_user_pin
              update_pin create_document get_user_documents get_documents_by_type
              delete_document update_document log_officer_access get_access_logs
              export_access_logs log_failed_attempt get_failed_attempts
              root health_check];
            unfold_monad; break_match; eauto; fail).
  - eexists; reflexivity.
  - match goal with
  | |- context [send_failed_alert ?d] =>
        destruct (send_failed_alert_run e w d) as (success & w' & Hrun & Hdb)
    end.
    unfold respond, bind. rewrite Hrun; simpl. rewrite Hdb; simpl. eauto.
Qed.

(** C10. A wrong pin for an existing user is answered with success = false
    (no exception, so HTTP 200) and the world is left as it was; among all
    the routes only POST /failed-attempt and POST /failed-attempt/alert
    change the collection of failed attempts, each by one appended record. *)
Theorem wrong_pin_leaves_no_trace (e : Env) (w : World) :
  (forall data u,
     user_by_id w (PinVerify.user_id data) = Some u ->
     hash_pin (PinVerify.pin data) <> User.pin_hash u ->
     verify_user_pin data e w = (Ok (Status.mk false "Invalid PIN"), w)) /\
  (forall req,
     match req with
     | POST_failed_attempt _ | POST_failed_attempt_alert _ =>
         exists a, failed_attempts (db (snd (handle req e w)))
                   = (failed_attempts (db w) ++ [a])%list
     | _ => failed_attempts (db (snd (handle req e w))) = failed_attempts (db w)
     end).
Proof.
  split; [|intros req; apply handle_failed_attempts].
  intros data u Hu Hpin. rewrite verify_user_pin_run, Hu.
  destruct (verify_pin _ _) eqn:Hv; [|reflexivity].
  apply verify_pin_true in Hv. contradiction.
Qed.

Lemma wrong_pin_leaves_no_trace_witness :
  verify_user_pin (PinVerify.mk "u1" "9999") env0 world_alice
  = (Ok (Status.mk false "Invalid PIN"), world_alice).
Proof.
  apply (proj1 (wrong_pin_leaves_no_trace env0 world_alice)
           (PinVerify.mk "u1" "9999") alice).
  - reflexivity.
  - vm_compute. discriminate.
Defined.

(** ** Documents *)

Lemma world_eta (w : World) : mkWorld (db w) (uuid_calls w) (clock_calls w) = w.
Proof. now destruct w. Qed.

Lemma db_eta (d : DB) :
  mkDB (users d) (documents d) (access_logs d) (failed_attempts d) (intruder_photos d) = d.
Proof. now destruct d. Qed.

(** C9, as the code has it.  Creating a document succeeds whatever the
    input and the state (no user needs to exist).  The answer carries the
    id drawn from [uuid4] and the two timestamps drawn from [utcnow]; the
    record appended to the collection is the answer with its two
    timestamps cut to milliseconds. *)
Theorem create_document_always_succeeds (e : Env) (w : World) (doc : DocumentCreate.t) :
  exists d w',
    create_document doc e w = (Ok d, w') /\
    d = Document.mk (uuid_source e (uuid_calls w))
          (DocumentCreate.user_id doc) (DocumentCreate.doc_type doc)
          (DocumentCreate.name doc) (DocumentCreate.image_base64 doc)
          (clock e (clock_calls w)) (clock e (S (clock_calls w))) /\
    documents (db w')
    = (documents (db w)
       ++ [Document.mk (Document.id d) (Document.user_id d) (Document.doc_type d)
             (Document.name d) (Document.image_base64 d)
             (bson_datetime (Document.created_at d))
             (bson_datetime (Document.updated_at d))])%list /\
    same_but_documents (db w') (db w).
Proof.
  unfold create_document; unfold_monad.
  eexists; eexists; split; [reflexivity|].
  repeat split.
Qed.

(** C9, as stated, fails when the clock reads a time that is not a whole
    number of milliseconds: the answer keeps the microseconds, the record
    that was stored does not. *)
Lemma create_document_answer_not_stored :
  exists d w',
    create_document (DocumentCreate.mk "u1" "id" "Passport" "aGVsbG8=") env_micro world0
    = (Ok d, w') /\
    microsecond (Document.created_at d) = 250123 /\
    map (fun x => microsecond (Document.created_at x)) (documents (db w')) = [250000] /\
    documents (db w') <> [d].
Proof.
  eexists; eexists; split; [vm_compute; reflexivity|].
  split; [reflexivity|]. split; [reflexivity|]. discriminate.
Qed.

Lemma delete_document_run (e : Env) (w : World) (doc_id : string) :
  delete_document doc_id e w =
  match Mongo.delete_one (fun d => Document.id d =? doc_id)%string (documents (db w)) with
  | (O, _) => (HTTPException 404 "Document not found", w)
  | (S _, l') =>
      (Ok (Status.mk true "Document deleted"),
       mkWorld (mkDB (users (db w)) l' (access_logs (db w)) (failed_attempts (db w))
                     (intruder_photos (db w)))
               (uuid_calls w) (clock_calls w))
  end.
Proof.
  unfold delete_document; unfold_monad.
  destruct (document_by_id w doc_id) as [d|] eqn:Hd; unfold document_by_id in Hd.
  - destruct (delete_one_some _ _ _ Hd) as (c1 & c2 & _ & _ & ->). reflexivity.
  - rewrite (delete_one_none _ _ Hd); simpl. now rewrite db_eta, world_eta.
Qed.

Lemma document_by_id_absent (w : World) (doc_id : string) :
  (forall d, In d (documents (db w)) -> Document.id d <> doc_id) ->
  document_by_id w doc_id = None.
Proof.
  intros H. apply find_one_none. intros d Hd.
  apply String.eqb_neq. now apply H.
Qed.

Lemma document_by_id_present (w : World) (doc_id : string) (d : Document.t) :
  In d (documents (db w)) -> Document.id d = doc_id ->
  exists d', document_by_id w doc_id = Some d'.
Proof.
  intros Hin Hid. destruct (document_by_id w doc_id) as [d'|] eqn:H; [eauto|].
  unfold document_by_id in H. rewrite find_one_none in H.
  specialize (H d Hin). apply String.eqb_neq in H. contradiction.
Qed.

Lemma NoDup_ids_remove (c1 c2 : list Document.t) (d x : Document.t) :
  NoDup (map Document.id (c1 ++ d :: c2)) ->
  In x (c1 ++ c2) -> Document.id x <> Document.id d.
Proof.
  rewrite map_app; simpl. intros Hnd Hx Heq.
  apply NoDup_remove_2 in Hnd. apply Hnd.
  rewrite <- map_app, <- Heq. now apply in_map.
Qed.

(** C7. Deleting an id that no stored document has fails with 404 and
    changes nothing; when the ids of the stored documents are pairwise
    distinct, deleting an existing document succeeds and deleting the same
    id again fails with 404. *)
Theorem delete_document_not_found (e : Env) (w : World) (doc_id : string) :
  ((forall d, In d (documents (db w)) -> Document.id d <> doc_id) ->
   delete_document doc_id e w = (HTTPException 404 "Document not found", w)) /\
  (forall d,
     In d (documents (db w)) -> Document.id d = doc_id ->
     NoDup (map Document.id (documents (db w))) ->
     exists w1,
       delete_document doc_id e w = (Ok (Status.mk true "Document deleted"), w1) /\
       delete_document doc_id e w1 = (HTTPException 404 "Document not found", w1)).
Proof.
  split.
  - intros H. rewrite delete_document_run.
    apply document_by_id_absent in H. unfold document_by_id in H.
    now rewrite (delete_one_none _ _ H).
  - intros d Hin Hid Hnd.
    destruct (document_by_id_present w doc_id d Hin Hid) as [d' Hd'].
    unfold document_by_id in Hd'.
    destruct (find_one_some _ _ _ Hd') as (c1' & c2' & _ & Hq & _).
    destruct (delete_one_some _ _ _ Hd') as (c1 & c2 & Hc & _ & Hdel).
    rewrite delete_document_run, Hdel.
    eexists; split; [reflexivity|].
    rewrite delete_document_run; simpl.
    rewrite delete_one_none; [reflexivity|].
    apply find_one_none. intros x Hx. apply String.eqb_neq.
    apply String.eqb_eq in Hq. rewrite <- Hq.
    rewrite Hc in Hnd. eapply NoDup_ids_remove; eauto.
Qed.

Lemma delete_document_not_found_witness :
  delete_document "d2" env0 world_passport
  = (HTTPException 404 "Document not found", world_passport) /\
  exists w1,
    delete_document "d1" env0 world_passport
    = (Ok (Status.mk true "Document deleted"), w1) /\
    delete_document "d1" env0 w1 = (HTTPException 404 "Document not found", w1).
Proof.
  split.
  - apply (proj1 (delete_document_not_found env0 world_passport "d2")).
    simpl. intros d [<-|[]]. discriminate.
  - apply (proj2 (delete_document_not_found env0 world_passport "d1") passport).
    + simpl; auto.
    + reflexivity.
    + simpl. constructor; [intros []|constructor].
Defined.

Lemma apply_set_updated (now : datetime) (name image_base64 : option string)
    (d : Document.t) :
  apply_set (UpdateData.mk now (if truthy_str name then name else None)
               (if truthy_str image_base64 then image_base64 else None)) d
  = updated_document now name image_base64 d.
Proof.
  destruct name as [[|c n]|], image_base64 as [[|c' i]|]; reflexivity.
Qed.

Lemma update_document_run (e : Env) (w : World) (doc_id : string)
    (name image_base64 : option string) :
  update_document doc_id name image_base64 e w =
  match Mongo.update_one (fun d => Document.id d =? doc_id)%string
          (updated_document (clock e (clock_calls w)) name image_base64)
          (documents (db w)) with
  | (O, _) =>
      (HTTPException 404 "Document not found",
       mkWorld (db w) (uuid_calls w) (S (clock_calls w)))
  | (S _, l') =>
      (Ok (Status.mk true "Document updated"),
       mkWorld (mkDB (users (db w)) l' (access_logs (db w)) (failed_attempts (db w))
                     (intruder_photos (db w)))
               (uuid_calls w) (S (clock_calls w)))
  end.
Proof.
  unfold update_document; unfold_monad.
  rewrite (update_one_ext _ _ _ _ (apply_set_updated (clock e (clock_calls w))
                                     name image_base64)).
  destruct (Mongo.update_one _ _ _) as [[|k] l'] eqn:Hup; simpl; [|reflexivity].
  destruct (document_by_id w doc_id) as [d|] eqn:Hd; unfold document_by_id in Hd.
  - destruct (update_one_some _ (updated_document (clock e (clock_calls w))
                                   name image_base64) _ _ Hd)
      as (c1 & c2 & _ & _ & Hup').
    rewrite Hup in Hup'. discriminate.
  - rewrite (update_one_none _ _ _ Hd) in Hup. inversion Hup; subst.
    now rewrite db_eta.
Qed.

(** C8, as the code has it.  The first document with the id is rewritten:
    a supplied field that is not the empty string replaces the stored one,
    [updated_at] becomes the current time (as BSON keeps it, to the
    millisecond), every other field, every other document and every other
    collection stays.  With no such document the
    call fails with 404 and the database is as before. *)
Theorem update_document_partial (e : Env) (w : World) (doc_id : string)
    (name image_base64 : option string) :
  (forall d,
     document_by_id w doc_id = Some d ->
     exists c1 c2 w',
       documents (db w) = (c1 ++ d :: c2)%list /\
       (forall x, In x c1 -> Document.id x <> doc_id) /\
       update_document doc_id name image_base64 e w
       = (Ok (Status.mk true "Document updated"), w') /\
       documents (db w')
       = (c1 ++ Document.mk (Document.id d) (Document.user_id d) (Document.doc_type d)
                   (written name (Document.name d))
                   (written image_base64 (Document.image_base64 d))
                   (Document.created_at d)
                   (bson_datetime (clock e (clock_calls w))) :: c2)%list /\
       same_but_documents (db w') (db w)) /\
  ((forall d, In d (documents (db w)) -> Document.id d <> doc_id) ->
   exists w',
     update_document doc_id name image_base64 e w
     = (HTTPException 404 "Document not found", w') /\
     db w' = db w).
Proof.
  split.
  - intros d Hd. unfold document_by_id in Hd.
    destruct (update_one_some _ (updated_document (clock e (clock_calls w))
                                   name image_base64) _ _ Hd)
      as (c1 & c2 & Hc & Hc1 & Hup).
    exists c1, c2. rewrite update_document_run, Hup.
    eexists; split; [exact Hc|split].
    + intros x Hx. apply String.eqb_neq. now apply Hc1.
    + split; [reflexivity|]. split; [reflexivity|]. repeat split.
  - intros H. apply document_by_id_absent in H. unfold document_by_id in H.
    rewrite update_document_run, (update_one_none _ _ _ H).
    eexists; split; reflexivity.
Qed.

Lemma update_document_partial_witness :
  (exists c1 c2 w',
     documents (db world_passport) = (c1 ++ passport :: c2)%list /\
     (forall x, In x c1 -> Document.id x <> "d1") /\
     update_document "d1" (Some "Visa") None env0 world_passport
     = (Ok (Status.mk true "Document updated"), w') /\
     documents (db w')
     = (c1 ++ Document.mk "d1" "u1" "id" "Visa" "aGVsbG8=" t0
                (Datetime 2024 1 15 10 0 2 250000) :: c2)%list /\
     same_but_documents (db w') (db world_passport)) /\
  (exists w',
     update_document "d2" (Some "Visa") None env0 world_passport
     = (HTTPException 404 "Document not found", w') /\
     db w' = db world_passport).
Proof.
  split.
  - apply (proj1 (update_document_partial env0 world_passport "d1"
                    (Some "Visa") None) passport).
    reflexivity.
  - apply (proj2 (update_document_partial env0 world_passport "d2"
                    (Some "Visa") None)).
    simpl. intros d [<-|[]]. discriminate.
Defined.

(** C8, as stated, fails on an empty string: PUT /documents/d1?name= is a
    request that supplies [name], and the stored name is not overwritten. *)
Lemma update_document_empty_name_kept :
  exists w',
    update_document "d1" (Some "") None env0 world_passport
    = (Ok (Status.mk true "Document updated"), w') /\
    map Document.name (documents (db w')) = ["Passport"] /\
    map Document.name (documents (db w')) <> [""].
Proof.
  eexists; split; [vm_compute; reflexivity|].
  split; [reflexivity|discriminate].
Qed.

(** ** Sorting and listing *)

Section Sorting.
Context {A : Type} (key : A -> datetime).

Lemma insert_desc_perm (x : A) (l : list A) :
  Permutation (Mongo.insert_desc key x l) (x :: l).
Proof.
  induction l as [|y l IH]; simpl; [reflexivity|].
  destruct (dt_leb (key y) (key x)); [reflexivity|].
  rewrite IH. apply perm_swap.
Qed.

Lemma sort_desc_perm (l : list A) : Permutation (Mongo.sort_desc key l) l.
Proof.
  induction l as [|x l IH]; simpl; [reflexivity|].
  rewrite insert_desc_perm. now constructor.
Qed.

Lemma insert_desc_sorted (x : A) (l : list A) :
  newest_first key l -> newest_first key (Mongo.insert_desc key x l).
Proof.
  unfold newest_first.
  induction l as [|y l IH]; simpl; intros Hs.
  - repeat constructor.
  - apply StronglySorted_inv in Hs as [Hl Hy].
    destruct (dt_leb (key y) (key x)) eqn:Hyx.
    + constructor; [now constructor|].
      constructor; [exact Hyx|].
      eapply Forall_impl; [|exact Hy].
      intros z Hz; simpl in *. eapply dt_leb_trans; eauto.
    + constructor; [now apply IH|].
      eapply Permutation_Forall; [symmetry; apply insert_desc_perm|].
      constructor; [|exact Hy].
      destruct (dt_leb_total (key x) (key y)); congruence.
Qed.

Lemma sort_desc_sorted (l : list A) : newest_first key (Mongo.sort_desc key l).
Proof.
  induction l as [|x l IH]; simpl; [constructor|].
  now apply insert_desc_sorted.
Qed.

Lemma in_firstn (n : nat) (l : list A) (x : A) : In x (firstn n l) -> In x l.
Proof.
  revert l; induction n as [|n IH]; intros [|y l]; simpl; try tauto.
  intros [->|H]; auto.
Qed.

Lemma newest_first_firstn (n : nat) (l : list A) :
  newest_first key l -> newest_first key (firstn n l).
Proof.
  unfold newest_first. revert l; induction n as [|n IH]; intros [|x l] Hs; simpl;
    try constructor.
  - apply IH. now apply StronglySorted_inv in Hs.
  - apply StronglySorted_inv in Hs as [_ Hx].
    apply Forall_forall. intros y Hy. rewrite Forall_forall in Hx.
    apply Hx. eapply in_firstn; eauto.
Qed.

Lemma sort_desc_length (l : list A) : List.length (Mongo.sort_desc key l) = List.length l.
Proof. apply Permutation_length, sort_desc_perm. Qed.

Lemma listing_sorted (cap : nat) (q : A -> bool) (c : list A) :
  newest_first key (listing key cap q c).
Proof. apply newest_first_firstn, sort_desc_sorted. Qed.

Lemma listing_length (cap : nat) (q : A -> bool) (c : list A) :
  List.length (listing key cap q c) = Nat.min cap (List.length (filter q c)).
Proof.
  unfold listing, Mongo.to_list, Mongo.find.
  now rewrite length_firstn, sort_desc_length.
Qed.

Lemma listing_sound (cap : nat) (q : A -> bool) (c : list A) (x : A) :
  In x (listing key cap q c) -> In x c /\ q x = true.
Proof.
  unfold listing, Mongo.to_list, Mongo.find. intros Hx.
  apply filter_In. eapply Permutation_in; [apply sort_desc_perm|].
  eapply in_firstn; eauto.
Qed.

Lemma listing_complete (cap : nat) (q : A -> bool) (c : list A) :
  (List.length (filter q c) <= cap)%nat ->
  Permutation (listing key cap q c) (filter q c).
Proof.
  unfold listing, Mongo.to_list, Mongo.find. intros Hlen.
  rewrite firstn_all2; [apply sort_desc_perm|].
  now rewrite sort_desc_length.
Qed.

End Sorting.

Lemma newest_first_map {A B : Type} (f : A -> B) (kb : B -> datetime) (l : list A) :
  newest_first (fun a => kb (f a)) l -> newest_first kb (map f l).
Proof.
  unfold newest_first. induction 1 as [|x l Hs IH Hx]; simpl; constructor; auto.
  apply Forall_map. exact Hx.
Qed.

Lemma newest_first_app {A : Type} (key : A -> datetime) (l1 l2 : list A) :
  newest_first key (l1 ++ l2) ->
  forall x y, In x l1 -> In y l2 -> dt_leb (key y) (key x) = true.
Proof.
  unfold newest_first. induction l1 as [|a l1 IH]; simpl; intros Hs x y Hx Hy.
  - contradiction.
  - apply StronglySorted_inv in Hs as [Hs Ha].
    destruct Hx as [<-|Hx]; [|now apply (IH Hs x y)].
    rewrite Forall_forall in Ha. apply Ha. apply in_or_app. now right.
Qed.

Lemma listing_newest {A : Type} (key : A -> datetime) (cap : nat)
    (q : A -> bool) (c : list A) :
  exists rest,
    Permutation (filter q c) (listing key cap q c ++ rest) /\
    forall x y, In x (listing key cap q c) -> In y rest ->
                dt_leb (key y) (key x) = true.
Proof.
  unfold listing, Mongo.to_list, Mongo.find.
  exists (skipn cap (Mongo.sort_desc key (filter q c))). split.
  - rewrite firstn_skipn. symmetry. apply sort_desc_perm.
  - apply newest_first_app. rewrite firstn_skipn. apply sort_desc_sorted.
Qed.

Lemma listing_listed_from {A : Type} (key : A -> datetime) (cap : nat)
    (q : A -> bool) (c : list A) :
  listed_from key cap q c (listing key cap q c).
Proof.
  split; [apply listing_sorted|].
  split; [apply listing_length|].
  split; [apply listing_newest|].
  split; [intros x Hx; eapply listing_sound; eauto|apply listing_complete].
Qed.

Lemma get_access_logs_run (e : Env) (w : World) (user_id : string) :
  get_access_logs user_id e w
  = (Ok (listing OfficerAccess.timestamp 1000 (access_of user_id) (access_logs (db w))), w).
Proof. reflexivity. Qed.

Lemma get_failed_attempts_run (e : Env) (w : World) (user_id : string) :
  get_failed_attempts user_id e w
  = (Ok (map attempt_view
           (listing FailedAttempt.timestamp 100 (attempt_of user_id)
              (failed_attempts (db w)))), w).
Proof. reflexivity. Qed.

Lemma run_failed_attempts (e : Env) (reqs : list FailedAttemptCreate.t) (w : World) :
  run e (map POST_failed_attempt reqs) w
  = mkWorld (mkDB (users (db w)) (documents (db w)) (access_logs (db w))
               (failed_attempts (db w)
                ++ logged_attempts e (uuid_calls w) (clock_calls w) reqs)
               (intruder_photos (db w)))
            (List.length reqs + uuid_calls w) (List.length reqs + clock_calls w).
Proof.
  revert w; induction reqs as [|r reqs IH]; intros w; simpl.
  - now rewrite app_nil_r, db_eta, world_eta.
  - rewrite IH; simpl. unfold Mongo.insert_one.
    rewrite <- app_assoc; simpl.
    now rewrite <- !plus_n_Sm.
Qed.

Lemma run_accesses (e : Env) (reqs : list OfficerAccessCreate.t) (w : World) :
  run e (map POST_access_log reqs) w
  = mkWorld (mkDB (users (db w)) (documents (db w))
               (access_logs (db w)
                ++ logged_accesses e (uuid_calls w) (clock_calls w) reqs)
               (failed_attempts (db w)) (intruder_photos (db w)))
            (List.length reqs + uuid_calls w) (List.length reqs + clock_calls w).
Proof.
  revert w; induction reqs as [|r reqs IH]; intros w; simpl.
  - now rewrite app_nil_r, db_eta, world_eta.
  - rewrite IH; simpl. unfold Mongo.insert_one.
    rewrite <- app_assoc; simpl.
    now rewrite <- !plus_n_Sm.
Qed.

Lemma logged_attempts_of (e : Env) (user_id : string) (reqs : list FailedAttemptCreate.t) :
  (forall r, In r reqs -> FailedAttemptCreate.user_id r = user_id) ->
  forall u c,
    filter (attempt_of user_id) (logged_attempts e u c reqs) = logged_attempts e u c reqs
    /\ List.length (logged_attempts e u c reqs) = List.length reqs.
Proof.
  induction reqs as [|r reqs IH]; intros H u c; simpl; [auto|].
  unfold attempt_of at 1; simpl.
  rewrite (H r (or_introl eq_refl)), String.eqb_refl.
  destruct (IH (fun x Hx => H x (or_intror Hx)) (S u) (S c)) as [-> ->]. auto.
Qed.

Lemma logged_accesses_of (e : Env) (user_id : string) (reqs : list OfficerAccessCreate.t) :
  (forall r, In r reqs -> OfficerAccessCreate.user_id r = user_id) ->
  forall u c,
    filter (access_of user_id) (logged_accesses e u c reqs) = logged_accesses e u c reqs
    /\ List.length (logged_accesses e u c reqs) = List.length reqs.
Proof.
  induction reqs as [|r reqs IH]; intros H u c; simpl; [auto|].
  unfold access_of at 1; simpl.
  rewrite (H r (or_introl eq_refl)), String.eqb_refl.
  destruct (IH (fun x Hx => H x (or_intror Hx)) (S u) (S c)) as [-> ->]. auto.
Qed.

(** C6. GET /access-log/{user_id} answers with the user's access records,
    newest first, the 1000 newest at most; GET /failed-attempts/{user_id}
    with the user's failed attempts, newest first, the 100 newest at most,
    each reduced to its id, timestamp, latitude and longitude.  After N
    records have been logged for the user, the listing runs over the
    earlier records and these N: all of them when they fit under the cap,
    newest first. *)
Theorem listings_newest_first (e : Env) (w : World) (user_id : string) :
  let reduced := fun a : FailedAttempt.t =>
    AttemptView.mk (FailedAttempt.id a) (FailedAttempt.timestamp a)
      (FailedAttempt.latitude a) (FailedAttempt.longitude a) in
  (exists logs,
     get_access_logs user_id e w = (Ok logs, w) /\
     listed_from OfficerAccess.timestamp 1000 (access_of user_id)
       (access_logs (db w)) logs) /\
  (exists attempts,
     get_failed_attempts user_id e w = (Ok (map reduced attempts), w) /\
     listed_from FailedAttempt.timestamp 100 (attempt_of user_id)
       (failed_attempts (db w)) attempts /\
     newest_first AttemptView.timestamp (map reduced attempts)) /\
  (forall reqs,
     (forall r, In r reqs -> OfficerAccessCreate.user_id r = user_id) ->
     let w' := run e (map POST_access_log reqs) w in
     let added := logged_accesses e (uuid_calls w) (clock_calls w) reqs in
     List.length added = List.length reqs /\
     filter (access_of user_id) (access_logs (db w'))
     = (filter (access_of user_id) (access_logs (db w)) ++ added)%list /\
     exists logs,
       get_access_logs user_id e w' = (Ok logs, w') /\
       listed_from OfficerAccess.timestamp 1000 (access_of user_id)
         (access_logs (db w')) logs) /\
  (forall reqs,
     (forall r, In r reqs -> FailedAttemptCreate.user_id r = user_id) ->
     let w' := run e (map POST_failed_attempt reqs) w in
     let added := logged_attempts e (uuid_calls w) (clock_calls w) reqs in
     List.length added = List.length reqs /\
     filter (attempt_of user_id) (failed_attempts (db w'))
     = (filter (attempt_of user_id) (failed_attempts (db w)) ++ added)%list /\
     exists attempts,
       get_failed_attempts user_id e w' = (Ok (map reduced attempts), w') /\
       listed_from FailedAttempt.timestamp 100 (attempt_of user_id)
         (failed_attempts (db w')) attempts /\
       newest_first AttemptView.timestamp (map reduced attempts)).
Proof.
  intros reduced.
  split; [|split; [|split]].
  - eexists; split; [apply get_access_logs_run|apply listing_listed_from].
  - eexists; split; [apply get_failed_attempts_run|].
    split; [apply listing_listed_from|].
    apply newest_first_map. apply (listing_sorted FailedAttempt.timestamp).
  - intros reqs H w' added.
    destruct (logged_accesses_of e user_id reqs H (uuid_calls w) (clock_calls w))
      as [Hf Hl].
    split; [exact Hl|]. split.
    + subst w'. rewrite run_accesses; simpl. now rewrite filter_app, Hf.
    + eexists; split; [apply get_access_logs_run|apply listing_listed_from].
  - intros reqs H w' added.
    destruct (logged_attempts_of e user_id reqs H (uuid_calls w) (clock_calls w))
      as [Hf Hl].
    split; [exact Hl|]. split.
    + subst w'. rewrite run_failed_attempts; simpl. now rewrite filter_app, Hf.
    + eexists; split; [apply get_failed_attempts_run|].
      split; [apply listing_listed_from|].
      apply newest_first_map. apply (listing_sorted FailedAttempt.timestamp).
Qed.

Lemma listings_newest_first_witness :
  (exists logs,
     get_access_logs "u1" env0 (run env0 (map POST_access_log two_accesses) world0)
     = (Ok logs, run env0 (map POST_access_log two_accesses) world0) /\
     map OfficerAccess.officer_name logs = ["Raj Rao"; "Ann Lee"]) /\
  (exists attempts,
     get_failed_attempts "u1" env0 (run env0 (map POST_failed_attempt three_attempts) world0)
     = (Ok (map (fun a => AttemptView.mk (FailedAttempt.id a) (FailedAttempt.timestamp a)
                            (FailedAttempt.latitude a) (FailedAttempt.longitude a))
              attempts),
        run env0 (map POST_failed_attempt three_attempts) world0) /\
     map FailedAttempt.id attempts = ["00000002"; "00000001"; "00000000"]).
Proof.
  split.
  - destruct (proj1 (proj2 (proj2 (listings_newest_first env0 world0 "u1"))) two_accesses)
      as (_ & _ & logs & Hrun & _).
    + simpl. intros r [<-|[<-|[]]]; reflexivity.
    + exists logs. split; [exact Hrun|].
      rewrite get_access_logs_run in Hrun. injection Hrun as <-. reflexivity.
  - destruct (proj2 (proj2 (proj2 (listings_newest_first env0 world0 "u1"))) three_attempts)
      as (_ & _ & attempts & Hrun & _).
    + simpl. intros r [<-|[<-|[<-|[]]]]; reflexivity.
    + exists (listing FailedAttempt.timestamp 100 (attempt_of "u1")
                (failed_attempts
                   (db (run env0 (map POST_failed_attempt three_attempts) world0)))).
      split; [apply get_failed_attempts_run|reflexivity].
Defined.

(** ** The export *)

Lemma export_fold (email date : string) (n : nat) (l : list OfficerAccess.t)
    (acc : list ExportEntry.t) :
  fold_left
    (fun data log =>
       ExportData.mk (ExportData.user_email data) (ExportData.export_date data)
         (ExportData.total_accesses data)
         (ExportData.logs data ++ [export_entry log])%list)
    l (ExportData.mk email date n acc)
  = ExportData.mk email date n (acc ++ map export_entry l)%list.
Proof.
  revert acc; induction l as [|x l IH]; intros acc; simpl.
  - now rewrite app_nil_r.
  - rewrite IH. now rewrite <- app_assoc.
Qed.

Lemma export_access_logs_run (e : Env) (w : World) (user_id : string) :
  export_access_logs user_id e w =
  let logs := listing OfficerAccess.timestamp 1000 (access_of user_id)
                (access_logs (db w)) in
  (Ok (ExportData.mk
         (match user_by_id w user_id with
          | Some u => User.email u
          | None => "Unknown"
          end)
         (isoformat (clock e (clock_calls w)))
         (List.length logs) (map export_entry logs)),
   mkWorld (db w) (uuid_calls w) (S (clock_calls w))).
Proof.
  unfold export_access_logs; unfold_monad.
  rewrite export_fold. reflexivity.
Qed.

(** C5, as the code has it.  The export is a read-only projection: the
    email of the first user with the id, or "Unknown" when there is none; a
    count equal to the number of entries in the report; the entries are the
    user's access records newest first, the 1000 newest at most, each
    given by its officer name, badge number, timestamp in ISO format,
    coordinates, address and viewed documents. *)
Theorem export_access_logs_report (e : Env) (w : World) (user_id : string) :
  exists report w' logs,
    export_access_logs user_id e w = (Ok report, w') /\
    db w' = db w /\
    ExportData.user_email report
    = match user_by_id w user_id with
      | Some u => User.email u
      | None => "Unknown"
      end /\
    ExportData.total_accesses report = List.length (ExportData.logs report) /\
    listed_from OfficerAccess.timestamp 1000 (access_of user_id)
      (access_logs (db w)) logs /\
    ExportData.logs report
    = map (fun log =>
             ExportEntry.mk (OfficerAccess.officer_name log)
               (OfficerAccess.badge_number log)
               (isoformat (OfficerAccess.timestamp log))
               (OfficerAccess.latitude log) (OfficerAccess.longitude log)
               (OfficerAccess.address log) (OfficerAccess.documents_viewed log))
          logs.
Proof.
  rewrite export_access_logs_run. cbn zeta.
  eexists; eexists; eexists; split; [reflexivity|].
  split; [reflexivity|]. split; [reflexivity|].
  split; [cbn [ExportData.total_accesses ExportData.logs]; now rewrite length_map|].
  split; [apply listing_listed_from|reflexivity].
Qed.

(** C5, as stated, fails beyond the cap: a user with 1001 access records
    gets a report of 1000 entries, not the full list. *)
Lemma export_access_logs_capped :
  exists report w',
    export_access_logs "u1" env0 world_busy = (Ok report, w') /\
    List.length (filter (access_of "u1") (access_logs (db world_busy))) = 1001%nat /\
    List.length (ExportData.logs report) = 1000%nat /\
    ExportData.total_accesses report = 1000%nat.
Proof.
  rewrite export_access_logs_run.
  eexists; eexists; split; [reflexivity|].
  split; [|split]; vm_compute; reflexivity.
Qed.

(** ** Registration *)

Lemma create_user_run (e : Env) (w : World) (user : UserCreate.t) :
  create_user user e w =
  match Mongo.find_one (fun u => User.email u =? UserCreate.email user)%string
          (users (db w)) with
  | Some _ => (HTTPException 400 "User already exists", w)
  | None =>
      (Ok (UserResponse.mk (uuid_source e (uuid_calls w)) (UserCreate.email user)
             (clock e (clock_calls w)) false),
       mkWorld (mkDB (users (db w) ++ [new_user e w user]) (documents (db w))
                  (access_logs (db w)) (failed_attempts (db w))
                  (intruder_photos (db w)))
               (S (uuid_calls w)) (S (clock_calls w)))
  end.
Proof.
  unfold create_user; unfold_monad.
  destruct (Mongo.find_one _ _); reflexivity.
Qed.

(** The part of C2 the code provides: an email that is stored, resubmitted
    letter for letter, is refused with 400 and nothing is stored. *)
Lemma create_user_same_email (e : Env) (w : World) (user : UserCreate.t) (u : User.t) :
  In u (users (db w)) -> User.email u = UserCreate.email user ->
  create_user user e w = (HTTPException 400 "User already exists", w).
Proof.
  intros Hin Heq. rewrite create_user_run.
  destruct (Mongo.find_one _ _) eqn:H; [reflexivity|].
  rewrite find_one_none in H. specialize (H u Hin).
  apply String.eqb_neq in H. contradiction.
Qed.

(** C2 at the failing input: with alice@example.com registered,
    Alice@example.com is accepted and stored as a second user, although
    the two emails are the same up to letter case. *)
Theorem create_user_other_case_accepted :
  lower "Alice@example.com" = User.email alice /\
  exists r w',
    create_user (UserCreate.mk "Alice@example.com" "0000") env0 world_alice
    = (Ok r, w') /\
    map User.email (users (db w')) = ["alice@example.com"; "Alice@example.com"].
Proof.
  split; [reflexivity|].
  rewrite create_user_run.
  eexists; eexists; split; reflexivity.
Qed.

(** [lower] against the answers of [str.lower()]. *)
Example lower_examples :
  forallb (fun p => String.eqb (lower (fst p)) (snd p))
  [
   ("Alice@example.com", "alice@example.com");
   ("JOSÉ@example.com", "josé@example.com");
   ("ΑΣ", "ας");
   ("Σ", "σ");
   ("ΑΣ.Β", "ασ.β");
   ("ΌΣΟΣ ὈΔΥΣΣΕΎΣ", "όσος ὀδυσσεύς");
   ("İstanbul", "i̇stanbul");
   ("ǅ", "ǆ");
   ("ẞ", "ß");
   ("K", "k");
   ("Å", "å");
   ("𐐀𐐁", "𐐨𐐩");
   ("ÀÉÎ", "àéî");
   ("Я.Б@ПОЧТА.РФ", "я.б@почта.рф");
   ("ÁΣ", "áς");
   ("ΑΣ́Α", "ασ́α");
   ("a'Σ'", "a'ς'");
   ("ΣΑΣ", "σας");
   ("ԱԲ", "աբ");
   ("Ⴀ", "ⴀ");
   ("ⒶⒷ", "ⓐⓑ");
   ("Ǆ", "ǆ");
   ("ᲐᲑ", "აბ");
   ("Ⅷ", "ⅷ")
  ] = true.
Proof. vm_compute. reflexivity. Qed.

(** *** No letter from A to Z survives [lower] *)

Module UnicodeFacts.
Import Unicode.

Lemma byte_range (a : ascii) : 0 <= byte a <= 255.
Proof. unfold byte. pose proof (nat_ascii_bounded a). lia. Qed.

Lemma decode_items_upto (n : nat) :
  forall s, (String.length s <= n)%nat -> Forall decoded_item (decode s).
Proof.
  induction n as [|n IH]; intros s Hlen.
  - destruct s; [constructor|simpl in Hlen; lia].
  - destruct s as [|a0 rest]; [constructor|].
    simpl in Hlen. assert (Hrest : (String.length rest <= n)%nat) by lia.
    pose proof (byte_range a0) as H0.
    assert (Hstray : 128 <= byte a0 -> Forall decoded_item (- byte a0 :: decode rest)).
    { intros H. constructor; [left; lia|now apply IH]. }
    cbn [decode]. cbv zeta.
    destruct (Z.ltb_spec (byte a0) 128) as [Hlt|Hge].
    { constructor; [right; lia|now apply IH]. }
    destruct rest as [|a1 rest1]; [now apply Hstray|].
    pose proof (byte_range a1) as H1.
    destruct ((192 <=? byte a0) && (byte a0 <? 224) && continuation (byte a1)) eqn:E2.
    { unfold continuation in E2.
      constructor; [right; lia|]. apply IH. simpl in Hrest. lia. }
    destruct rest1 as [|a2 rest2]; [now apply Hstray|].
    pose proof (byte_range a2) as H2.
    destruct ((224 <=? byte a0) && (byte a0 <? 240) && continuation (byte a1)
              && continuation (byte a2)) eqn:E3.
    { unfold continuation in E3.
      constructor; [right; lia|]. apply IH. simpl in Hrest. lia. }
    destruct rest2 as [|a3 rest3]; [now apply Hstray|].
    pose proof (byte_range a3) as H3.
    destruct ((240 <=? byte a0) && (byte a0 <? 248) && continuation (byte a1)
              && continuation (byte a2) && continuation (byte a3)) eqn:E4.
    { unfold continuation in E4.
      constructor; [right; lia|]. apply IH. simpl in Hrest. lia. }
    now apply Hstray.
Qed.

Lemma decode_items (s : string) : Forall decoded_item (decode s).
Proof. now apply (decode_items_upto (String.length s)). Qed.

Lemma lookup_lower_image (t : list (Z * Z * Z * Z)) (c l : Z) :
  forallb row_lowers t = true -> lookup_lower t c = Some l ->
  0 <= l < 2097152 /\ ~ (65 <= l <= 90).
Proof.
  induction t as [|[[[lo hi] delta] step] t IH]; simpl; [discriminate|].
  intros Hrows. apply andb_true_iff in Hrows as [Hrow Hrows].
  destruct ((lo <=? c) && (c <=? hi) && ((c - lo) mod step =? 0)) eqn:Hin.
  - intros [= <-]. lia.
  - now apply IH.
Qed.

Lemma lower_table_rows : forallb row_lowers lower_table = true.
Proof. vm_compute. reflexivity. Qed.

Lemma lookup_lower_capital (c : Z) :
  65 <= c <= 90 -> lookup_lower lower_table c = Some (c + 32).
Proof.
  intros Hc. unfold lower_table. cbn [lookup_lower].
  replace ((65 <=? c) && (c <=? 90) && ((c - 65) mod 1 =? 0)) with true; [reflexivity|].
  rewrite Z.mod_1_r. symmetry. lia.
Qed.

Lemma lower_full_items (c : Z) : decoded_item c -> Forall lowered_item (lower_full c).
Proof.
  intros Hc. unfold lower_full.
  destruct (c =? 304).
  { constructor; [right; lia|]. constructor; [right; lia|constructor]. }
  destruct (lookup_lower lower_table c) as [l|] eqn:Hl.
  - constructor; [|constructor]. right.
    exact (lookup_lower_image _ _ _ lower_table_rows Hl).
  - constructor; [|constructor].
    destruct Hc as [Hc|Hc]; [now left|]. right. split; [exact Hc|].
    intros Hcap. rewrite (lookup_lower_capital c Hcap) in Hl. discriminate.
Qed.

Lemma lower_from_items (cps : list Z) :
  Forall decoded_item cps -> forall st, Forall lowered_item (lower_from st cps).
Proof.
  induction 1 as [|c cps Hc Hcps IH]; intros st; simpl; [constructor|].
  apply Forall_app. split; [|apply IH].
  destruct (c =? 931).
  - destruct (st && negb (cased_follows cps));
      (constructor; [right; lia|constructor]).
  - now apply lower_full_items.
Qed.

Lemma encode_one_bytes (c : Z) : lowered_item c -> Forall plain_byte (encode_one c).
Proof.
  unfold lowered_item, encode_one, plain_byte. intros Hc.
  destruct (Z.ltb_spec c 0); [repeat constructor; lia|].
  destruct (Z.ltb_spec c 128); [repeat constructor; lia|].
  destruct (Z.ltb_spec c 2048);
    [repeat constructor; Z.div_mod_to_equations; lia|].
  destruct (Z.ltb_spec c 65536);
    repeat constructor; Z.div_mod_to_equations; lia.
Qed.

Lemma chr_plain (b : Z) : plain_byte b -> ascii_upper (chr b) = false.
Proof.
  unfold plain_byte, ascii_upper, chr. intros [Hb Hcap].
  rewrite nat_ascii_embedding by lia.
  destruct (Nat.leb_spec 65 (Z.to_nat b)), (Nat.leb_spec (Z.to_nat b) 90);
    simpl; try reflexivity.
  lia.
Qed.

Lemma string_of_bytes_plain (bs : list Z) :
  Forall plain_byte bs ->
  all_chars (fun c => negb (ascii_upper c)) (string_of_bytes bs) = true.
Proof.
  induction 1 as [|b bs Hb Hbs IH]; simpl; [reflexivity|].
  now rewrite (chr_plain b Hb), IH.
Qed.

Lemma flat_map_bytes (cps : list Z) :
  Forall lowered_item cps -> Forall plain_byte (flat_map encode_one cps).
Proof.
  induction 1 as [|c cps Hc Hcps IH]; simpl; [constructor|].
  apply Forall_app. split; [now apply encode_one_bytes|exact IH].
Qed.

End UnicodeFacts.

Lemma lower_no_capital (s : string) :
  all_chars (fun c => negb (ascii_upper c)) (lower s) = true.
Proof.
  unfold lower, Unicode.encode.
  apply UnicodeFacts.string_of_bytes_plain, UnicodeFacts.flat_map_bytes.
  apply UnicodeFacts.lower_from_items, UnicodeFacts.decode_items.
Qed.

(** The sibling lookup lowers its argument: no request to
    GET /users/by-email can look for the email stored above. *)
Lemma lower_never_mixed_case (email : string) : lower email <> "Alice@example.com".
Proof.
  intros H. pose proof (lower_no_capital email) as Hlow.
  rewrite H in Hlow. vm_compute in Hlow. discriminate.
Qed.

(** ** The alert *)

Lemma send_failed_attempt_email_no_key (e : Env) (w : World) (email : string)
    (latitude longitude : option float) (intruder_photo : option string) :
  SENDGRID_API_KEY e = None \/ SENDGRID_API_KEY e = Some "" ->
  send_failed_attempt_email email latitude longitude intruder_photo e w = (Ok false, w).
Proof.
  unfold send_failed_attempt_email; unfold_monad.
  intros [-> | ->]; reflexivity.
Qed.

Lemma send_failed_attempt_email_raises (e : Env) (w : World) (email : string)
    (latitude longitude : option float) (intruder_photo : option string) :
  (forall key message, sg_send e key message = SendRaises) ->
  exists w',
    send_failed_attempt_email email latitude longitude intruder_photo e w
    = (Ok false, w') /\ db w' = db w.
Proof.
  intros Hraise. unfold send_failed_attempt_email; unfold_monad.
  destruct (SENDGRID_API_KEY e) as [[|c key]|]; simpl; eauto.
  destruct (sendgrid_importable e); simpl; eauto.
  destruct intruder_photo as [[|c' photo]|]; simpl; rewrite Hraise; simpl; eauto.
Qed.

Lemma send_failed_attempt_email_accepted (e : Env) (w : World) (email : string)
    (latitude longitude : option float) (intruder_photo : option string)
    (c : ascii) (key : string) :
  SENDGRID_API_KEY e = Some (String c key) ->
  sendgrid_importable e = true ->
  (forall k message, sg_send e k message = SendStatus 202) ->
  exists w',
    send_failed_attempt_email email latitude longitude intruder_photo e w
    = (Ok true, w') /\ db w' = db w.
Proof.
  intros Hkey Himp Hsend. unfold send_failed_attempt_email; unfold_monad.
  rewrite Hkey, Himp; simpl.
  destruct intruder_photo as [[|c' photo]|]; simpl; rewrite Hsend; simpl; eauto.
Qed.

(** What C1 says and the code provides: every alert request is answered
    with a flag and a message (no exception), whatever the dispatch did;
    one record is appended to the failed attempts; a photo that is not
    the empty string is appended to the intruder photos, with the id of
    that record as its [attempt_id]. *)
Lemma send_failed_alert_persists (e : Env) (w : World) (data : EmailAlertRequest.t) :
  exists success w',
    send_failed_alert data e w = (Ok (Status.mk success (alert_message success)), w') /\
    failed_attempts (db w') = (failed_attempts (db w) ++ [alert_attempt e w data])%list /\
    intruder_photos (db w') = (intruder_photos (db w) ++ alert_photos e w data)%list /\
    (forall c photo,
       EmailAlertRequest.intruder_photo data = Some (String c photo) ->
       exists p,
         alert_photos e w data = [p] /\
         IntruderPhoto.attempt_id p = FailedAttempt.id (alert_attempt e w data) /\
         IntruderPhoto.photo_base64 p = String c photo) /\
    users (db w') = users (db w) /\
    documents (db w') = documents (db w) /\
    access_logs (db w') = access_logs (db w).
Proof.
  destruct (send_failed_alert_run e w data) as (success & w' & Hrun & Hdb).
  exists success, w'. split; [exact Hrun|]. rewrite Hdb; simpl.
  repeat split.
  intros c photo Hphoto. unfold alert_photos. rewrite Hphoto.
  eexists; repeat split.
Qed.

(** C1 at the failing input: the photo field is present and empty.
    Whatever the environment and the state, the failed attempt is stored
    with [has_photo] true and no intruder photo is stored for it. *)
Theorem send_failed_alert_empty_photo (e : Env) (w : World)
    (user_id email : string) (latitude longitude : option float) :
  exists success w' a,
    send_failed_alert
      (EmailAlertRequest.mk user_id email latitude longitude (Some "")) e w
    = (Ok (Status.mk success (alert_message success)), w') /\
    failed_attempts (db w') = (failed_attempts (db w) ++ [a])%list /\
    FailedAttempt.has_photo a = Some true /\
    intruder_photos (db w') = intruder_photos (db w).
Proof.
  destruct (send_failed_alert_persists e w
              (EmailAlertRequest.mk user_id email latitude longitude (Some "")))
    as (success & w' & Hrun & Hfa & Hph & _).
  exists success, w'; eexists. split; [exact Hrun|]. split; [exact Hfa|].
  split; [reflexivity|]. rewrite Hph; simpl. apply app_nil_r.
Qed.

Example send_failed_alert_empty_photo_no_key :
  exists w',
    send_failed_alert empty_photo_alert env0 world0
    = (Ok (Status.mk false "Failed to send alert (check SendGrid API key)"), w') /\
    map FailedAttempt.has_photo (failed_attempts (db w')) = [Some true] /\
    intruder_photos (db w') = [].
Proof.
  eexists; split; [vm_compute; reflexivity|split; reflexivity].
Qed.

Example send_failed_alert_with_photo :
  exists w',
    send_failed_alert photo_alert env_ok world0
    = (Ok (Status.mk true "Security alert with photo sent"), w') /\
    map FailedAttempt.has_photo (failed_attempts (db w')) = [Some true] /\
    map IntruderPhoto.attempt_id (intruder_photos (db w'))
    = map FailedAttempt.id (failed_attempts (db w')).
Proof.
  eexists; split; [vm_compute; reflexivity|split; reflexivity].
Qed.

Example send_failed_alert_provider_down :
  exists w',
    send_failed_alert photo_alert env_down world0
    = (Ok (Status.mk false "Failed to send alert (check SendGrid API key)"), w') /\
    List.length (failed_attempts (db w')) = 1%nat /\
    List.length (intruder_photos (db w')) = 1%nat.
Proof.
  eexists; split; [vm_compute; reflexivity|split; reflexivity].
Qed.

(** ** The digest is a 256-bit number *)

Module SHA256Facts.
Import SHA256.

Lemma add32_word (x y : Z) : word (add32 x y).
Proof. unfold word, add32, wrap32. apply Z.mod_pos_bound. reflexivity. Qed.

Lemma init_ok : state_ok init.
Proof. unfold state_ok, word, init; cbn [sa sb sc sd se sf sg sh]. lia. Qed.

Lemma compress_ok (s : state) (block : list Z) : state_ok (compress s block).
Proof.
  unfold compress, state_ok; cbn [sa sb sc sd se sf sg sh].
  repeat split; apply add32_word.
Qed.

Lemma fold_compress_ok (bs : list (list Z)) (s : state) :
  state_ok s -> state_ok (fold_left compress bs s).
Proof.
  revert s; induction bs as [|b bs IH]; intros s Hs; [exact Hs|].
  cbn [fold_left]. apply IH, compress_ok.
Qed.

Lemma hash_ok (msg : list Z) : state_ok (hash msg).
Proof. unfold hash. apply fold_compress_ok, init_ok. Qed.

Lemma push_word (k x w : Z) :
  0 <= k -> 0 <= x < 2 ^ k -> word w -> 0 <= x * 2 ^ 32 + w < 2 ^ (k + 32).
Proof.
  unfold word. intros Hk Hx Hw.
  rewrite Z.pow_add_r by lia.
  generalize dependent (2 ^ 32). generalize dependent (2 ^ k). intros; nia.
Qed.

Lemma pack_bound (s : state) : state_ok s -> 0 <= pack s < 2 ^ 256.
Proof.
  unfold state_ok, pack.
  intros (Ha & Hb & Hc & Hd & He & Hf & Hg & Hh).
  apply (push_word 224); [lia| |exact Hh].
  apply (push_word 192); [lia| |exact Hg].
  apply (push_word 160); [lia| |exact Hf].
  apply (push_word 128); [lia| |exact He].
  apply (push_word 96); [lia| |exact Hd].
  apply (push_word 64); [lia| |exact Hc].
  apply (push_word 32); [lia| |exact Hb].
  exact Ha.
Qed.

Lemma digest_bound (msg : list Z) : 0 <= digest msg < 2 ^ 256.
Proof. apply pack_bound, hash_ok. Qed.

End SHA256Facts.

(** ** Id sources that never repeat *)

Lemma ones_inj (i j : nat) : ones i = ones j -> i = j.
Proof.
  revert j; induction i as [|i IH]; intros [|j]; simpl; try discriminate; auto.
  intros [= H]. f_equal. now apply IH.
Qed.

(** ** Changing the PIN *)

Lemma update_pin_run (e : Env) (w : World) (user_id old_pin new_pin : string) :
  update_pin user_id old_pin new_pin e w =
  match user_by_id w user_id with
  | None => (HTTPException 404 "User not found", w)
  | Some u =>
      if verify_pin old_pin (User.pin_hash u)
      then (Ok (Status.mk true "PIN updated"),
            mkWorld (mkDB (snd (Mongo.update_one
                                  (fun u => User.id u =? user_id)%string
                                  (set_pin_hash (hash_pin new_pin)) (users (db w))))
                       (documents (db w)) (access_logs (db w))
                       (failed_attempts (db w)) (intruder_photos (db w)))
                    (uuid_calls w) (clock_calls w))
      else (HTTPException 401 "Invalid current PIN", w)
  end.
Proof.
  unfold update_pin, user_by_id, find_one, update_one, read, write, bind, ret, raise.
  cbn [coll_get coll_set db_users].
  destruct (Mongo.find_one _ _) as [u|]; [|reflexivity].
  destruct (verify_pin _ _); cbn [negb]; [|reflexivity].
  destruct (Mongo.update_one _ _ _) as [n l']; reflexivity.
Qed.




(** The scenario of the specification. *)
Example pin_scenario :
  let w1 := snd (create_user (UserCreate.mk "a@example.com" "1234") env0 world0) in
  let id := uuid_source env0 0 in
  fst (verify_user_pin (PinVerify.mk id "1234") env0 w1)
  = Ok (Status.mk true "PIN verified") /\
  fst (verify_user_pin (PinVerify.mk id "0000") env0 w1)
  = Ok (Status.mk false "Invalid PIN") /\
  let w2 := snd (update_pin id "1234" "5678" env0 w1) in
  fst (update_pin id "1234" "5678" env0 w1) = Ok (Status.mk true "PIN updated") /\
  fst (verify_user_pin (PinVerify.mk id "1234") env0 w2)
  = Ok (Status.mk false "Invalid PIN") /\
  fst (verify_user_pin (PinVerify.mk id "5678") env0 w2)
  = Ok (Status.mk true "PIN verified").
Proof. vm_compute. repeat split. Qed.

(** ** Document ids stay distinct *)

Lemma send_failed_alert_counters (e : Env) (w : World) (data : EmailAlertRequest.t) :
  (uuid_calls w <= uuid_calls (snd (send_failed_alert data e w)))%nat.
Proof.
  unfold send_failed_alert.
  destruct data as [user_id email latitude longitude [[|c photo]|]]; unfold_monad.
  all: match goal with
       | |- context [send_failed_attempt_email ?m ?la ?lo ?ph ?e1 ?w1] =>
           destruct (send_failed_attempt_email_total e1 w1 m la lo ph)
             as (success & n & ->)
       end.
  all: simpl; lia.
Qed.

Lemma handle_documents (e : Env) (w : World) (req : Request) :
  (uuid_calls w <= uuid_calls (snd (handle req e w)))%nat /\
  documents_step e w (snd (handle req e w)).
Proof.
  destruct req.
  15: {
    cbn [handle]. unfold respond, bind.
    pose proof (send_failed_alert_counters e w data) as Hc.
    destruct (send_failed_alert_run e w data) as (success & w' & Hrun & Hdb).
    rewrite Hrun in *; simpl in *. split; [exact Hc|].
    apply docs_same. now rewrite Hdb. }
  all: cbn [handle];
    cbv delta [create_user get_user get_user_by_email verify_user_pin
               update_pin create_document get_user_documents get_documents_by_type
               delete_document update_document log_officer_access get_access_logs
               export_access_logs log_failed_attempt get_failed_attempts
               root health_check];
    unfold_monad.
  all: try (break_match; (split; [simpl; lia|apply docs_same; reflexivity])).
  - split; [lia|]. eapply docs_added; simpl; [reflexivity|reflexivity|lia].
  - destruct (Mongo.delete_one _ _) as [n l'] eqn:Hdel; simpl.
    destruct (n =? 0)%nat; simpl; (split; [lia|]);
      eapply docs_deleted; simpl; rewrite Hdel; reflexivity.
  - destruct (Mongo.update_one _ _ _) as [n l'] eqn:Hup; simpl.
    destruct (n =? 0)%nat; simpl; (split; [lia|]);
      (eapply docs_updated; [|simpl; rewrite Hup; reflexivity]); reflexivity.
Qed.

Lemma delete_one_ids (q : Document.t -> bool) (c : list Document.t) :
  (forall x, In x (snd (Mongo.delete_one q c)) -> In x c) /\
  (NoDup (map Document.id c) -> NoDup (map Document.id (snd (Mongo.delete_one q c)))).
Proof.
  destruct (Mongo.find_one q c) as [d|] eqn:H.
  - destruct (delete_one_some _ _ _ H) as (c1 & c2 & -> & _ & ->); simpl. split.
    + intros x Hx. apply in_app_iff in Hx. apply in_app_iff. simpl. tauto.
    + rewrite !map_app; simpl. apply NoDup_remove_1.
  - rewrite (delete_one_none _ _ H); simpl. auto.
Qed.

Lemma update_one_ids (q : Document.t -> bool) (upd : Document.t -> Document.t)
    (c : list Document.t) :
  (forall d, Document.id (upd d) = Document.id d) ->
  map Document.id (snd (Mongo.update_one q upd c)) = map Document.id c.
Proof.
  intros Hid. destruct (Mongo.find_one q c) as [d|] eqn:H.
  - destruct (update_one_some _ upd _ _ H) as (c1 & c2 & -> & _ & ->); simpl.
    rewrite !map_app; simpl. now rewrite Hid.
  - now rewrite (update_one_none _ _ _ H).
Qed.

Lemma handle_keeps_ids_fresh (e : Env) (w : World) (req : Request) :
  uuid_unique e -> document_ids_fresh e w ->
  document_ids_fresh e (snd (handle req e w)).
Proof.
  intros Hu [Hnd Hsrc].
  destruct (handle_documents e w req) as [Hle Hstep].
  set (w' := snd (handle req e w)) in *. unfold document_ids_fresh.
  destruct Hstep as [Heq | d Heq Hid Hlt | q Heq | q upd Hupd Heq]; rewrite Heq.
  - split; [exact Hnd|]. intros d Hd.
    destruct (Hsrc d Hd) as (n & Hn & Hdn). exists n; split; [lia|exact Hdn].
  - split.
    + rewrite map_app; simpl. apply NoDup_app; repeat split.
      * exact Hnd.
      * constructor; [intros []|constructor].
      * intros x Hx [Hy|[]]. apply in_map_iff in Hx as (d0 & <- & Hd0).
        destruct (Hsrc d0 Hd0) as (n & Hn & Hdn).
        rewrite Hid, Hdn in Hy. apply Hu in Hy. lia.
    + intros x Hx. apply in_app_iff in Hx as [Hx|[<-|[]]].
      * destruct (Hsrc x Hx) as (n & Hn & Hdn). exists n; split; [lia|exact Hdn].
      * exists (uuid_calls w); split; [exact Hlt|exact Hid].
  - destruct (delete_one_ids q (documents (db w))) as [Hin Hnd'].
    split; [now apply Hnd'|]. intros d Hd.
    destruct (Hsrc d (Hin d Hd)) as (n & Hn & Hdn). exists n; split; [lia|exact Hdn].
  - split; [now rewrite update_one_ids|]. intros d Hd.
    assert (In (Document.id d) (map Document.id (documents (db w)))) as Hd'
      by (rewrite <- (update_one_ids q upd _ Hupd); now apply in_map).
    apply in_map_iff in Hd' as (d0 & Hd0 & Hin0).
    destruct (Hsrc d0 Hin0) as (n & Hn & Hdn).
    exists n; split; [lia|congruence].
Qed.

(** Whatever requests have been served since the database was empty, the
    stored documents have pairwise distinct ids. *)
Lemma run_keeps_ids_fresh (e : Env) (reqs : list Request) (w : World) :
  uuid_unique e -> document_ids_fresh e w -> document_ids_fresh e (run e reqs w).
Proof.
  intros Hu. revert w; induction reqs as [|r reqs IH]; intros w Hw; simpl; [exact Hw|].
  apply IH. now apply handle_keeps_ids_fresh.
Qed.

Lemma reachable_document_ids_distinct (e : Env) (reqs : list Request) :
  uuid_unique e ->
  NoDup (map Document.id (documents (db (run e reqs world0)))).
Proof.
  intros Hu. apply (run_keeps_ids_fresh e reqs world0 Hu).
  split; [constructor|]. intros d [].
Qed.

Example env_unary_unique : uuid_unique env_unary.
Proof. intros m n H. now apply ones_inj. Qed.

Example env_unary_ids_distinct (reqs : list Request) :
  NoDup (map Document.id (documents (db (run env_unary reqs world0)))).
Proof. apply reachable_document_ids_distinct, env_unary_unique. Qed.

(** * Further properties of the routes *)

(** ** What each route may touch *)

Ltac unfold_handlers :=
  cbv delta [create_user get_user get_user_by_email verify_user_pin
             update_pin create_document get_user_documents get_documents_by_type
             delete_document update_document log_officer_access get_access_logs
             export_access_logs log_failed_attempt get_failed_attempts
             root health_check];
  unfold_monad.

(** Every route writes to its own collection only: the user routes to
    [db.users], the document routes to [db.documents], the two logging
    routes to their ledger, the alert to the failed attempts and the
    intruder photos.  The GET routes and the PIN check write nothing, also
    when they fail. *)
Theorem handle_frame (e : Env) (w : World) (req : Request) :
  let d := db (snd (handle req e w)) in
  match req with
  | POST_users _ | PUT_pin _ _ _ => same_but_users d (db w)
  | POST_documents _ | DELETE_document _ | PUT_document _ _ _ =>
      same_but_documents d (db w)
  | POST_access_log _ => same_but_access_logs d (db w)
  | POST_failed_attempt _ => same_but_failed_attempts d (db w)
  | POST_failed_attempt_alert _ => same_but_alerts d (db w)
  | _ => d = db w
  end.
Proof.
  destruct req; cbn zeta.
  15: {
    cbn [handle]. unfold respond, bind.
    destruct (send_failed_alert_run e w data) as (success & w' & Hrun & Hdb).
    rewrite Hrun; simpl. rewrite Hdb. repeat split. }
  all: cbn [handle]; unfold_handlers; break_match;
    try reflexivity; try (repeat split; fail); try apply db_eta.
Qed.

(** ** Ledgers only grow *)

Lemma extends_refl {A : Type} (l : list A) : extends l l.
Proof. exists []. now rewrite app_nil_r. Qed.

Lemma extends_trans {A : Type} (l1 l2 l3 : list A) :
  extends l1 l2 -> extends l2 l3 -> extends l1 l3.
Proof. intros [m1 ->] [m2 ->]. exists (m1 ++ m2)%list. now rewrite app_assoc. Qed.

Lemma extends_insert {A : Type} {bson : BSON A} (l : list A) (d : A) :
  extends l (Mongo.insert_one d l).
Proof. now exists [to_bson d]. Qed.

Lemma extends_map_insert {A B : Type} {bson : BSON A} (f : A -> B) (l : list A) (d : A) :
  extends (map f l) (map f (Mongo.insert_one d l)).
Proof. exists [f (to_bson d)]. unfold Mongo.insert_one. now rewrite map_app. Qed.

Lemma update_one_map {A B : Type} (f : A -> B) (q : A -> bool) (upd : A -> A)
    (c : list A) :
  (forall d, f (upd d) = f d) ->
  map f (snd (Mongo.update_one q upd c)) = map f c.
Proof.
  intros Hf. induction c as [|x c IH]; simpl; [reflexivity|].
  destruct (q x); simpl; [now rewrite Hf|].
  destruct (Mongo.update_one q upd c) as [n r]; simpl in *. now rewrite IH.
Qed.

Lemma handle_extends (e : Env) (w : World) (req : Request) :
  let d := db (snd (handle req e w)) in
  extends (map user_identity (users (db w))) (map user_identity (users d)) /\
  extends (access_logs (db w)) (access_logs d) /\
  extends (failed_attempts (db w)) (failed_attempts d) /\
  extends (intruder_photos (db w)) (intruder_photos d).
Proof.
  destruct req; cbn zeta.
  5: {
    cbn [handle]. unfold respond, bind. rewrite update_pin_run.
    destruct (user_by_id w user_id); [destruct (verify_pin _ _)|]; simpl;
      repeat split; try apply extends_refl.
    rewrite update_one_map; [apply extends_refl|reflexivity]. }
  14: {
    cbn [handle]. unfold respond, bind.
    destruct (send_failed_alert_run e w data) as (success & w' & Hrun & Hdb).
    rewrite Hrun; simpl. rewrite Hdb; simpl.
    repeat split; try apply extends_refl; eexists; reflexivity. }
  all: cbn [handle]; unfold_handlers; break_match; repeat split;
    first [apply extends_refl | apply extends_insert | apply extends_map_insert].
Qed.

(** Whatever requests are served, no access record, failed attempt or
    intruder photo is ever removed or rewritten, and no user is removed:
    the three ledgers keep their records in place and grow at the end, and
    so does the list of users as to id, email, creation time and premium
    flag (only [pin_hash] is ever rewritten). *)
Theorem ledgers_append_only (e : Env) (reqs : list Request) (w : World) :
  let d := db (run e reqs w) in
  extends (map user_identity (users (db w))) (map user_identity (users d)) /\
  extends (access_logs (db w)) (access_logs d) /\
  extends (failed_attempts (db w)) (failed_attempts d) /\
  extends (intruder_photos (db w)) (intruder_photos d).
Proof.
  revert w; induction reqs as [|r reqs IH]; intros w; simpl.
  - repeat split; apply extends_refl.
  - destruct (handle_extends e w r) as (H1 & H2 & H3 & H4).
    destruct (IH (snd (handle r e w))) as (K1 & K2 & K3 & K4).
    repeat split; eapply extends_trans; eauto.
Qed.

(** ** Ids stay distinct *)

Lemma send_failed_alert_uuid_calls (e : Env) (w : World) (data : EmailAlertRequest.t) :
  uuid_calls (snd (send_failed_alert data e w))
  = (List.length (alert_photos e w data) + S (uuid_calls w))%nat.
Proof.
  unfold send_failed_alert, alert_photos.
  destruct data as [user_id email latitude longitude [[|c photo]|]]; unfold_monad.
  all: match goal with
       | |- context [send_failed_attempt_email ?m ?la ?lo ?ph ?e1 ?w1] =>
           destruct (send_failed_attempt_email_total e1 w1 m la lo ph)
             as (success & n & ->)
       end.
  all: reflexivity.
Qed.

Ltac solve_step :=
  first
    [ apply step_same; reflexivity
    | eapply step_added; [reflexivity | reflexivity | simpl; lia]
    | match goal with
      | H : Mongo.delete_one ?q ?c = (_, _) |- _ =>
          apply (step_deleted _ _ _ _ _ _ q); rewrite H; reflexivity
      end
    | match goal with
      | H : Mongo.update_one ?q ?f ?c = (_, _) |- _ =>
          apply (step_updated _ _ _ _ _ _ q f); [reflexivity | rewrite H; reflexivity]
      end ].

Lemma handle_steps (e : Env) (w : World) (req : Request) :
  let w' := snd (handle req e w) in
  (uuid_calls w <= uuid_calls w')%nat /\
  coll_step User.id e (uuid_calls w) (uuid_calls w') (users (db w)) (users (db w')) /\
  coll_step Document.id e (uuid_calls w) (uuid_calls w')
    (documents (db w)) (documents (db w')) /\
  coll_step OfficerAccess.id e (uuid_calls w) (uuid_calls w')
    (access_logs (db w)) (access_logs (db w')) /\
  coll_step FailedAttempt.id e (uuid_calls w) (uuid_calls w')
    (failed_attempts (db w)) (failed_attempts (db w')) /\
  coll_step IntruderPhoto.id e (uuid_calls w) (uuid_calls w')
    (intruder_photos (db w)) (intruder_photos (db w')).
Proof.
  destruct req; cbn zeta.
  15: {
    cbn [handle]. unfold respond, bind.
    pose proof (send_failed_alert_uuid_calls e w data) as Hu.
    destruct (send_failed_alert_run e w data) as (success & w' & Hrun & Hdb).
    rewrite Hrun in *; simpl in *. rewrite Hdb, Hu; simpl.
    split; [lia|]. repeat split; try (apply step_same; reflexivity).
    - eapply step_added; [reflexivity|reflexivity|lia].
    - unfold alert_photos.
      destruct (EmailAlertRequest.intruder_photo data) as [[|c photo]|]; simpl.
      + apply step_same. apply app_nil_r.
      + eapply (step_added _ _ _ _ _ _ _ (S (uuid_calls w)));
          [reflexivity|reflexivity|lia].
      + apply step_same. apply app_nil_r. }
  all: cbn [handle]; unfold_handlers; break_match;
    (split; [simpl; lia|]); repeat split; solve_step.
Qed.

Lemma coll_step_fresh {A : Type} (id : A -> string) (e : Env) (u u' : nat)
    (c c' : list A) :
  uuid_unique e -> (u <= u')%nat ->
  coll_step id e u u' c c' -> ids_fresh id e u c -> ids_fresh id e u' c'.
Proof.
  intros Hu Hle Hstep [Hnd Hsrc]. unfold ids_fresh.
  destruct Hstep as [-> | d k -> Hid Hk | q -> | q upd Hupd ->].
  - split; [exact Hnd|]. intros d Hd.
    destruct (Hsrc d Hd) as (n & Hn & Hdn). exists n; split; [lia|exact Hdn].
  - split.
    + rewrite map_app; simpl. apply NoDup_app; repeat split.
      * exact Hnd.
      * constructor; [intros []|constructor].
      * intros x Hx [Hy|[]]. apply in_map_iff in Hx as (d0 & <- & Hd0).
        destruct (Hsrc d0 Hd0) as (n & Hn & Hdn).
        rewrite Hid, Hdn in Hy. apply Hu in Hy. lia.
    + intros x Hx. apply in_app_iff in Hx as [Hx|[<-|[]]].
      * destruct (Hsrc x Hx) as (n & Hn & Hdn). exists n; split; [lia|exact Hdn].
      * exists k; split; [lia|exact Hid].
  - destruct (Mongo.find_one q c) as [d|] eqn:H.
    + destruct (delete_one_some _ _ _ H) as (c1 & c2 & -> & _ & ->); simpl. split.
      * rewrite !map_app in *; simpl in *. eapply NoDup_remove_1; eauto.
      * intros x Hx.
        destruct (Hsrc x) as (n & Hn & Hdn).
        { apply in_app_iff in Hx. apply in_app_iff. simpl. tauto. }
        exists n; split; [lia|exact Hdn].
    + rewrite (delete_one_none _ _ H); simpl.
      split; [exact Hnd|]. intros d Hd.
      destruct (Hsrc d Hd) as (n & Hn & Hdn). exists n; split; [lia|exact Hdn].
  - split; [now rewrite update_one_map|]. intros d Hd.
    assert (In (id d) (map id c)) as Hd'
      by (rewrite <- (update_one_map id q upd c Hupd); now apply in_map).
    apply in_map_iff in Hd' as (d0 & Hd0 & Hin0).
    destruct (Hsrc d0 Hin0) as (n & Hn & Hdn).
    exists n; split; [lia|congruence].
Qed.

Lemma run_ids_fresh (e : Env) (reqs : list Request) (w : World) :
  uuid_unique e ->
  ids_fresh User.id e (uuid_calls w) (users (db w)) ->
  ids_fresh Document.id e (uuid_calls w) (documents (db w)) ->
  ids_fresh OfficerAccess.id e (uuid_calls w) (access_logs (db w)) ->
  ids_fresh FailedAttempt.id e (uuid_calls w) (failed_attempts (db w)) ->
  ids_fresh IntruderPhoto.id e (uuid_calls w) (intruder_photos (db w)) ->
  ids_distinct (db (run e reqs w)).
Proof.
  intros Hu. revert w; induction reqs as [|r reqs IH]; intros w H1 H2 H3 H4 H5.
  - simpl. unfold ids_distinct. repeat split;
      [apply H1|apply H2|apply H3|apply H4|apply H5].
  - simpl. destruct (handle_steps e w r) as (Hle & S1 & S2 & S3 & S4 & S5).
    apply IH; eapply coll_step_fresh; eauto.
Qed.

(** As long as [uuid4] never gives the same value twice, every collection
    has pairwise distinct ids after any sequence of requests served from
    the empty database. *)
Theorem ids_stay_distinct (e : Env) (reqs : list Request) :
  uuid_unique e -> ids_distinct (db (run e reqs world0)).
Proof.
  intros Hu. apply run_ids_fresh; [exact Hu|..];
    (split; [constructor|intros d []]).
Qed.

Lemma ids_stay_distinct_witness :
  ids_distinct
    (db (run env_unary
           [POST_documents (DocumentCreate.mk "u1" "id" "Passport" "aGVsbG8=");
            POST_failed_attempt_alert photo_alert;
            POST_documents (DocumentCreate.mk "u1" "permit" "Permit" "aGVsbG8=")]
           world0)).
Proof.
  apply (ids_stay_distinct env_unary). intros m n H. now apply ones_inj.
Defined.

(** ** One user per email, letter for letter *)

Lemma handle_emails (e : Env) (w : World) (req : Request) :
  NoDup (map User.email (users (db w))) ->
  NoDup (map User.email (users (db (snd (handle req e w))))).
Proof.
  intros Hnd. destruct req.
  1: {
    cbn [handle]. unfold respond, bind. rewrite create_user_run.
    destruct (Mongo.find_one _ _) eqn:Hfind; simpl; [exact Hnd|].
    rewrite map_app; simpl. apply NoDup_app; repeat split.
    - exact Hnd.
    - constructor; [intros []|constructor].
    - intros x Hx [Hy|[]]. apply in_map_iff in Hx as (u & <- & Hu).
      rewrite find_one_none in Hfind. specialize (Hfind u Hu).
      apply String.eqb_neq in Hfind. congruence. }
  4: {
    cbn [handle]. unfold respond, bind. rewrite update_pin_run.
    destruct (user_by_id w user_id); [destruct (verify_pin _ _)|]; simpl;
      try exact Hnd.
    rewrite update_one_map; [exact Hnd|reflexivity]. }
  13: {
    cbn [handle]. unfold respond, bind.
    destruct (send_failed_alert_run e w data) as (success & w' & Hrun & Hdb).
    rewrite Hrun; simpl. now rewrite Hdb. }
  all: cbn [handle]; unfold_handlers; break_match; exact Hnd.
Qed.

(** Served from the empty database, the routes never store two users with
    the same email string. *)
Theorem emails_stay_distinct (e : Env) (reqs : list Request) :
  NoDup (map User.email (users (db (run e reqs world0)))).
Proof.
  assert (forall w, NoDup (map User.email (users (db w))) ->
                    NoDup (map User.email (users (db (run e reqs w))))) as H.
  { induction reqs as [|r reqs IH]; intros w Hw; simpl; [exact Hw|].
    apply IH. now apply handle_emails. }
  apply H. constructor.
Qed.

(** ** Photos and their attempts *)

Lemma handle_photos_linked (e : Env) (w : World) (req : Request) :
  photos_linked (db w) -> photos_linked (db (snd (handle req e w))).
Proof.
  intros Hinv. destruct req.
  15: {
    cbn [handle]. unfold respond, bind.
    destruct (send_failed_alert_run e w data) as (success & w' & Hrun & Hdb).
    rewrite Hrun; simpl. rewrite Hdb. intros p; simpl. intros Hp.
    apply in_app_iff in Hp as [Hp|Hp].
    - destruct (Hinv p Hp) as (a & Ha & Hlink). exists a; split; [|exact Hlink].
      apply in_or_app; now left.
    - exists (alert_attempt e w data). split; [apply in_or_app; right; now left|].
      unfold alert_photos, alert_attempt in *.
      destruct (EmailAlertRequest.intruder_photo data) as [[|c photo]|];
        simpl in Hp; try contradiction.
      destruct Hp as [<-|[]]. repeat split. }
  all: cbn [handle]; unfold_handlers; break_match; intros p Hp;
    destruct (Hinv p Hp) as (a & Ha & Hlink); exists a; (split; [|exact Hlink]);
    simpl; try (unfold Mongo.insert_one; apply in_or_app; left); exact Ha.
Qed.

(** Served from the empty database, the routes keep every intruder photo
    linked: its [attempt_id] is the id of a stored failed attempt of the
    same user, and that attempt has [has_photo] true. *)
Theorem photos_stay_linked (e : Env) (reqs : list Request) :
  photos_linked (db (run e reqs world0)).
Proof.
  assert (forall w, photos_linked (db w) -> photos_linked (db (run e reqs w))) as H.
  { induction reqs as [|r reqs IH]; intros w Hw; simpl; [exact Hw|].
    apply IH. now apply handle_photos_linked. }
  apply H. intros p [].
Qed.

(** ** Registration and lookup *)

Lemma find_one_snoc {A : Type} (q : A -> bool) (c : list A) (d : A) :
  (forall x, In x c -> q x = false) -> q d = true ->
  Mongo.find_one q (c ++ [d]) = Some d.
Proof. intros Hc Hd. now apply find_one_app_first. Qed.

Lemma get_user_run (e : Env) (w : World) (user_id : string) :
  get_user user_id e w =
  match user_by_id w user_id with
  | None => (HTTPException 404 "User not found", w)
  | Some u => (Ok (user_response u), w)
  end.
Proof.
  unfold get_user, user_by_id; unfold_monad.
  destruct (Mongo.find_one _ _); reflexivity.
Qed.

Lemma get_user_by_email_run (e : Env) (w : World) (email : string) :
  get_user_by_email email e w =
  match Mongo.find_one (fun u => User.email u =? lower email)%string (users (db w)) with
  | None => (HTTPException 404 "User not found", w)
  | Some u => (Ok (user_response u), w)
  end.
Proof.
  unfold get_user_by_email; unfold_monad.
  destruct (Mongo.find_one _ _); reflexivity.
Qed.

(** A registration with an email that is not stored yet, answered with an
    id no stored user has, can be read back: GET /users/{id} gives the
    answer of the registration with [created_at] cut to milliseconds (the
    registration answers from memory, the lookup from the database), and
    the PIN of the registration verifies. *)
Theorem create_user_round_trip (e : Env) (w : World) (user : UserCreate.t) :
  (forall u, In u (users (db w)) -> User.email u <> UserCreate.email user) ->
  (forall u, In u (users (db w)) -> User.id u <> uuid_source e (uuid_calls w)) ->
  exists r w1,
    create_user user e w = (Ok r, w1) /\
    UserResponse.email r = UserCreate.email user /\
    UserResponse.created_at r = clock e (clock_calls w) /\
    get_user (UserResponse.id r) e w1
    = (Ok (UserResponse.mk (UserResponse.id r) (UserResponse.email r)
             (bson_datetime (UserResponse.created_at r))
             (UserResponse.is_premium r)), w1) /\
    verify_user_pin (PinVerify.mk (UserResponse.id r) (UserCreate.pin user)) e w1
    = (Ok (Status.mk true "PIN verified"), w1).
Proof.
  intros Hemail Hid. rewrite create_user_run.
  assert (Mongo.find_one (fun u => User.email u =? UserCreate.email user)%string
            (users (db w)) = None) as ->.
  { apply find_one_none. intros u Hu. apply String.eqb_neq. now apply Hemail. }
  eexists; eexists; split; [reflexivity|]. split; [reflexivity|].
  split; [reflexivity|].
  assert (forall w1, users (db w1) = (users (db w) ++ [new_user e w user])%list ->
            user_by_id w1 (uuid_source e (uuid_calls w)) = Some (new_user e w user))
    as Hfound.
  { intros w1 Hw1. unfold user_by_id. rewrite Hw1. apply find_one_snoc.
    - intros x Hx. apply String.eqb_neq. now apply Hid.
    - apply String.eqb_refl. }
  split.
  - rewrite get_user_run. cbn [UserResponse.id]. now rewrite Hfound.
  - rewrite verify_user_pin_run. cbn [UserResponse.id PinVerify.user_id PinVerify.pin].
    rewrite Hfound by reflexivity. cbn [new_user User.pin_hash].
    now replace (verify_pin (UserCreate.pin user) (hash_pin (UserCreate.pin user)))
      with true by (symmetry; now apply verify_pin_true).
Qed.

Lemma create_user_round_trip_witness :
  exists r w1,
    create_user (UserCreate.mk "bob@example.com" "2468") env_micro world_alice
    = (Ok r, w1) /\
    UserResponse.email r = "bob@example.com" /\
    UserResponse.created_at r = Datetime 2024 1 15 10 30 1 250123 /\
    get_user (UserResponse.id r) env_micro w1
    = (Ok (UserResponse.mk (UserResponse.id r) (UserResponse.email r)
             (bson_datetime (UserResponse.created_at r))
             (UserResponse.is_premium r)), w1) /\
    verify_user_pin (PinVerify.mk (UserResponse.id r) "2468") env_micro w1
    = (Ok (Status.mk true "PIN verified"), w1).
Proof.
  apply (create_user_round_trip env_micro world_alice
           (UserCreate.mk "bob@example.com" "2468")).
  - simpl. intros u [<-|[]]. discriminate.
  - simpl. intros u [<-|[]]. discriminate.
Defined.

(** GET /users/by-email only ever answers with the view of a stored user
    whose email is the lowered argument; such an email has no letter from
    A to Z in it, so a user stored with one is answered by no such
    request.  The lookup changes nothing. *)
Theorem get_user_by_email_lowercase_only (e : Env) (w w' : World) (email : string)
    (r : UserResponse.t) :
  get_user_by_email email e w = (Ok r, w') ->
  w' = w /\
  UserResponse.email r = lower email /\
  all_chars (fun c => negb (ascii_upper c)) (UserResponse.email r) = true /\
  exists u, In u (users (db w)) /\ User.email u = lower email /\ user_response u = r.
Proof.
  rewrite get_user_by_email_run.
  destruct (Mongo.find_one _ _) as [u|] eqn:Hfind; [|discriminate].
  intros [= <- <-].
  destruct (find_one_some _ _ _ Hfind) as (c1 & c2 & Hc & Hq & _).
  apply String.eqb_eq in Hq.
  split; [reflexivity|]. split; [exact Hq|]. split.
  - cbn [user_response UserResponse.email]. rewrite Hq. apply lower_no_capital.
  - exists u. split; [|split; [exact Hq|reflexivity]].
    rewrite Hc. apply in_or_app. right. now left.
Qed.

Lemma get_user_by_email_lowercase_only_witness :
  UserResponse.email (user_response alice) = lower "ALICE@Example.com".
Proof.
  apply (get_user_by_email_lowercase_only env0 world_alice world_alice
           "ALICE@Example.com" (user_response alice)).
  vm_compute. reflexivity.
Defined.

(** A registration whose email is what [str.lower()] makes of some string
    can be found by email under that string: after it,
    GET /users/by-email answers with the registered user (the answer of
    the registration, [created_at] cut to milliseconds) for every argument
    that lowers to the registered email. *)
Theorem create_user_then_by_email (e : Env) (w : World) (user : UserCreate.t)
    (email : string) :
  (forall u, In u (users (db w)) -> User.email u <> UserCreate.email user) ->
  lower email = UserCreate.email user ->
  exists r w1,
    create_user user e w = (Ok r, w1) /\
    get_user_by_email email e w1
    = (Ok (UserResponse.mk (UserResponse.id r) (UserResponse.email r)
             (bson_datetime (UserResponse.created_at r))
             (UserResponse.is_premium r)), w1).
Proof.
  intros Hemail Hlower. rewrite create_user_run.
  assert (Mongo.find_one (fun u => User.email u =? UserCreate.email user)%string
            (users (db w)) = None) as ->.
  { apply find_one_none. intros u Hu. apply String.eqb_neq. now apply Hemail. }
  eexists; eexists; split; [reflexivity|].
  rewrite get_user_by_email_run. cbn [db users]. rewrite Hlower.
  rewrite find_one_snoc; [reflexivity| |apply String.eqb_refl].
  intros x Hx. apply String.eqb_neq. now apply Hemail.
Qed.

Lemma create_user_then_by_email_witness :
  exists r w1,
    create_user (UserCreate.mk "josé@example.com" "2468") env_micro world_alice
    = (Ok r, w1) /\
    get_user_by_email "JOSÉ@Example.COM" env_micro w1
    = (Ok (UserResponse.mk (UserResponse.id r) (UserResponse.email r)
             (bson_datetime (UserResponse.created_at r))
             (UserResponse.is_premium r)), w1).
Proof.
  apply (create_user_then_by_email env_micro world_alice
           (UserCreate.mk "josé@example.com" "2468") "JOSÉ@Example.COM").
  - simpl. intros u [<-|[]]. discriminate.
  - vm_compute. reflexivity.
Defined.

(** ** What a PIN change and a deletion rewrite *)

(** A successful PIN change rewrites one field of one record: the first
    user with the id gets the digest of the new PIN as [pin_hash]; every
    other field, every other user and every other collection stay, and no
    id or clock reading is drawn. *)
Theorem update_pin_frame (e : Env) (w : World) (user_id old_pin new_pin : string)
    (u : User.t) :
  user_by_id w user_id = Some u ->
  hash_pin old_pin = User.pin_hash u ->
  exists c1 c2 w1,
    users (db w) = (c1 ++ u :: c2)%list /\
    (forall x, In x c1 -> User.id x <> user_id) /\
    update_pin user_id old_pin new_pin e w = (Ok (Status.mk true "PIN updated"), w1) /\
    users (db w1)
    = (c1 ++ User.mk (User.id u) (User.email u) (hash_pin new_pin)
               (User.created_at u) (User.is_premium u) :: c2)%list /\
    same_but_users (db w1) (db w) /\
    uuid_calls w1 = uuid_calls w /\ clock_calls w1 = clock_calls w.
Proof.
  intros Hu Hpin. rewrite update_pin_run, Hu.
  assert (verify_pin old_pin (User.pin_hash u) = true) as ->
    by now apply verify_pin_true.
  unfold user_by_id in Hu.
  destruct (update_one_some _ (set_pin_hash (hash_pin new_pin)) _ _ Hu)
    as (c1 & c2 & Hc & Hc1 & Hup).
  exists c1, c2. eexists. split; [exact Hc|]. split.
  { intros x Hx. apply String.eqb_neq. now apply Hc1. }
  split; [reflexivity|]. cbn [db users uuid_calls clock_calls].
  rewrite Hup. repeat split.
Qed.

Lemma update_pin_frame_witness :
  exists c1 c2 w1,
    users (db world_alice) = (c1 ++ alice :: c2)%list /\
    (forall x, In x c1 -> User.id x <> "u1") /\
    update_pin "u1" "1234" "5678" env0 world_alice
    = (Ok (Status.mk true "PIN updated"), w1) /\
    users (db w1)
    = (c1 ++ User.mk "u1" "alice@example.com" (hash_pin "5678") t0 (Some false) :: c2)%list /\
    same_but_users (db w1) (db world_alice) /\
    uuid_calls w1 = 1%nat /\ clock_calls w1 = 1%nat.
Proof.
  apply (update_pin_frame env0 world_alice "u1" "1234" "5678" alice); reflexivity.
Defined.

(** A successful deletion removes one record: the first document with the
    id goes, the documents before and after it stay in order (also one
    with the same id further on), and no other collection changes. *)
Theorem delete_document_removes_first (e : Env) (w : World) (doc_id : string)
    (d : Document.t) :
  document_by_id w doc_id = Some d ->
  exists c1 c2 w1,
    documents (db w) = (c1 ++ d :: c2)%list /\
    (forall x, In x c1 -> Document.id x <> doc_id) /\
    delete_document doc_id e w = (Ok (Status.mk true "Document deleted"), w1) /\
    documents (db w1) = (c1 ++ c2)%list /\
    same_but_documents (db w1) (db w).
Proof.
  intros Hd. unfold document_by_id in Hd.
  destruct (delete_one_some _ _ _ Hd) as (c1 & c2 & Hc & Hc1 & Hdel).
  exists c1, c2. rewrite delete_document_run, Hdel.
  eexists. split; [exact Hc|]. split.
  { intros x Hx. apply String.eqb_neq. now apply Hc1. }
  split; [reflexivity|]. repeat split.
Qed.

Lemma delete_document_removes_first_witness :
  exists c1 c2 w1,
    documents (db world_passport) = (c1 ++ passport :: c2)%list /\
    (forall x, In x c1 -> Document.id x <> "d1") /\
    delete_document "d1" env0 world_passport
    = (Ok (Status.mk true "Document deleted"), w1) /\
    documents (db w1) = (c1 ++ c2)%list /\
    same_but_documents (db w1) (db world_passport).
Proof.
  apply (delete_document_removes_first env0 world_passport "d1" passport).
  reflexivity.
Defined.

Lemma delete_one_snoc {A : Type} (q : A -> bool) (c : list A) (d : A) :
  (forall x, In x c -> q x = false) -> q d = true ->
  Mongo.delete_one q (c ++ [d]) = (1%nat, c).
Proof.
  intros Hc Hd. induction c as [|x c IH]; simpl.
  - now rewrite Hd.
  - rewrite (Hc x (or_introl eq_refl)).
    rewrite IH; [reflexivity|]. intros y Hy. apply Hc. now right.
Qed.

Lemma create_document_run (e : Env) (w : World) (doc : DocumentCreate.t) :
  create_document doc e w =
  let d := Document.mk (uuid_source e (uuid_calls w))
             (DocumentCreate.user_id doc) (DocumentCreate.doc_type doc)
             (DocumentCreate.name doc) (DocumentCreate.image_base64 doc)
             (clock e (clock_calls w)) (clock e (S (clock_calls w))) in
  (Ok d,
   mkWorld (mkDB (users (db w)) (documents (db w) ++ [to_bson d]) (access_logs (db w))
              (failed_attempts (db w)) (intruder_photos (db w)))
           (S (uuid_calls w)) (S (S (clock_calls w)))).
Proof. reflexivity. Qed.

(** Creating a document and deleting the id that was answered puts the
    database back as it was, provided no stored document had that id. *)
Theorem create_then_delete_restores (e : Env) (w : World) (doc : DocumentCreate.t) :
  (forall x, In x (documents (db w)) -> Document.id x <> uuid_source e (uuid_calls w)) ->
  exists d w1 w2,
    create_document doc e w = (Ok d, w1) /\
    delete_document (Document.id d) e w1
    = (Ok (Status.mk true "Document deleted"), w2) /\
    db w2 = db w.
Proof.
  intros Hfresh. rewrite create_document_run.
  eexists; eexists; eexists. split; [reflexivity|].
  rewrite delete_document_run. cbn [snd db documents Document.id].
  unfold Mongo.insert_one. rewrite delete_one_snoc.
  - split; [reflexivity|]. simpl. apply db_eta.
  - intros x Hx. apply String.eqb_neq. now apply Hfresh.
  - apply String.eqb_refl.
Qed.

Lemma create_then_delete_restores_witness :
  exists d w1 w2,
    create_document (DocumentCreate.mk "u1" "permit" "Permit" "aGVsbG8=") env0
      world_passport = (Ok d, w1) /\
    delete_document (Document.id d) env0 w1
    = (Ok (Status.mk true "Document deleted"), w2) /\
    db w2 = db world_passport.
Proof.
  apply (create_then_delete_restores env0 world_passport).
  simpl. intros x [<-|[]]. discriminate.
Defined.

(** ** Listing documents *)

Lemma get_user_documents_run (e : Env) (w : World) (user_id : string) :
  get_user_documents user_id e w
  = (Ok (firstn 100 (filter (document_of user_id) (documents (db w)))), w).
Proof. reflexivity. Qed.

Lemma get_documents_by_type_run (e : Env) (w : World) (user_id doc_type : string) :
  get_documents_by_type user_id doc_type e w
  = (Ok (firstn 100 (filter (document_of_type user_id doc_type) (documents (db w)))), w).
Proof. reflexivity. Qed.

(** The two document listings are not sorted: each answers with the first
    100 matching documents in the order they were stored (all of them when
    there are at most 100), and changes nothing. *)
Theorem documents_listed_oldest_first (e : Env) (w : World) (user_id doc_type : string) :
  exists docs typed,
    get_user_documents user_id e w = (Ok docs, w) /\
    get_documents_by_type user_id doc_type e w = (Ok typed, w) /\
    (exists rest, filter (document_of user_id) (documents (db w)) = (docs ++ rest)%list) /\
    List.length docs
    = Nat.min 100 (List.length (filter (document_of user_id) (documents (db w)))) /\
    (exists rest, filter (document_of_type user_id doc_type) (documents (db w))
                  = (typed ++ rest)%list) /\
    List.length typed
    = Nat.min 100 (List.length (filter (document_of_type user_id doc_type)
                                  (documents (db w)))).
Proof.
  eexists; eexists.
  split; [apply get_user_documents_run|].
  split; [apply get_documents_by_type_run|].
  split; [eexists; symmetry; apply firstn_skipn|].
  split; [apply length_firstn|].
  split; [eexists; symmetry; apply firstn_skipn|apply length_firstn].
Qed.

(** A new document shows in the owner's listing only while the owner has
    fewer than 100 documents: then it is listed last, as it was stored
    (its two timestamps cut to milliseconds); from the 100th on, the
    listing after the creation is the listing before it. *)
Theorem created_document_listed_under_cap (e : Env) (w : World) (doc : DocumentCreate.t) :
  let owned := filter (document_of (DocumentCreate.user_id doc)) (documents (db w)) in
  exists d w1 before after,
    create_document doc e w = (Ok d, w1) /\
    get_user_documents (DocumentCreate.user_id doc) e w = (Ok before, w) /\
    get_user_documents (DocumentCreate.user_id doc) e w1 = (Ok after, w1) /\
    ((List.length owned < 100)%nat ->
     after
     = (before
        ++ [Document.mk (Document.id d) (Document.user_id d) (Document.doc_type d)
              (Document.name d) (Document.image_base64 d)
              (bson_datetime (Document.created_at d))
              (bson_datetime (Document.updated_at d))])%list) /\
    ((100 <= List.length owned)%nat -> after = before).
Proof.
  intros owned. rewrite create_document_run. cbn zeta.
  eexists; eexists; eexists; eexists.
  split; [reflexivity|].
  split; [apply get_user_documents_run|].
  split; [apply get_user_documents_run|].
  cbn [db documents]. rewrite filter_app. cbn [filter].
  unfold document_of at 2 5. cbn [to_bson bson_document Document.user_id].
  rewrite String.eqb_refl.
  fold owned. split; intros Hlen.
  - rewrite (firstn_all2 owned) by lia.
    apply firstn_all2. rewrite length_app; simpl. lia.
  - rewrite firstn_app.
    replace (100 - List.length owned)%nat with 0%nat by lia.
    simpl. apply app_nil_r.
Qed.

Lemma created_document_listed_under_cap_witness :
  (exists d w1 before after,
     create_document (DocumentCreate.mk "u1" "permit" "Permit" "aGVsbG8=") env_micro
       world_passport = (Ok d, w1) /\
     get_user_documents "u1" env_micro world_passport = (Ok before, world_passport) /\
     get_user_documents "u1" env_micro w1 = (Ok after, w1) /\
     after
     = (before
        ++ [Document.mk (Document.id d) (Document.user_id d) (Document.doc_type d)
              (Document.name d) (Document.image_base64 d)
              (bson_datetime (Document.created_at d))
              (bson_datetime (Document.updated_at d))])%list) /\
  (exists d w1 before after,
     create_document (DocumentCreate.mk "u1" "permit" "Permit" "aGVsbG8=") env0
       world_full = (Ok d, w1) /\
     get_user_documents "u1" env0 world_full = (Ok before, world_full) /\
     get_user_documents "u1" env0 w1 = (Ok after, w1) /\
     after = before).
Proof.
  split.
  - destruct (created_document_listed_under_cap env_micro world_passport
                (DocumentCreate.mk "u1" "permit" "Permit" "aGVsbG8="))
      as (d & w1 & before & after & H1 & H2 & H3 & Hlt & _).
    exists d, w1, before, after. repeat split; try assumption.
    apply Hlt. simpl. lia.
  - destruct (created_document_listed_under_cap env0 world_full
                (DocumentCreate.mk "u1" "permit" "Permit" "aGVsbG8="))
      as (d & w1 & before & after & H1 & H2 & H3 & _ & Hge).
    exists d, w1, before, after. repeat split; try assumption.
    apply Hge. apply Nat.leb_le. vm_compute. reflexivity.
Defined.

(** ** The alert email *)

Lemma send_failed_attempt_email_run (e : Env) (w : World) (email : string)
    (latitude longitude : option float) (intruder_photo : option string)
    (c : ascii) (key : string) :
  SENDGRID_API_KEY e = Some (String c key) ->
  sendgrid_importable e = true ->
  send_failed_attempt_email email latitude longitude intruder_photo e w
  = (Ok (accepted (sg_send e (String c key)
                     (alert_mail e w email latitude longitude intruder_photo))),
     mkWorld (db w) (uuid_calls w)
       ((if truthy_str intruder_photo then 2 else 1) + clock_calls w)).
Proof.
  intros Hkey Himp. unfold send_failed_attempt_email, alert_mail, photo_data.
  unfold_monad. rewrite Hkey, Himp; simpl.
  destruct intruder_photo as [[|c' photo]|]; simpl;
    destruct (sg_send e _ _); reflexivity.
Qed.

(** With a key configured and the client library present, the alert is
    handed to the provider once, addressed to the given email, and the
    answer is true exactly when the provider answers with status 202.  The
    message has a location only when both coordinates are given and
    neither is 0.0, and an attachment exactly when the photo is a
    non-empty string.  Nothing is written to the database. *)
Theorem alert_email_dispatch (e : Env) (w : World) (email : string)
    (latitude longitude : option float) (intruder_photo : option string)
    (c : ascii) (key : string) :
  SENDGRID_API_KEY e = Some (String c key) ->
  sendgrid_importable e = true ->
  exists m w',
    send_failed_attempt_email email latitude longitude intruder_photo e w
    = (Ok (accepted (sg_send e (String c key) m)), w') /\
    db w' = db w /\
    Mail.to_emails m = email /\
    (Mail.location_info m <> None <->
     exists la lo, latitude = Some la /\ longitude = Some lo /\
                   PrimFloat.eqb la 0 = false /\ PrimFloat.eqb lo 0 = false) /\
    (Mail.attachment m <> None <->
     exists c' photo, intruder_photo = Some (String c' photo)).
Proof.
  intros Hkey Himp.
  rewrite (send_failed_attempt_email_run _ _ _ _ _ _ _ _ Hkey Himp).
  eexists; eexists; split; [reflexivity|]. split; [reflexivity|].
  split; [reflexivity|]. cbn [alert_mail Mail.location_info Mail.attachment]. split.
  - destruct latitude as [la|], longitude as [lo|]; simpl;
      try (split; [congruence|intros (la' & lo' & H1 & H2 & _); discriminate]).
    destruct (PrimFloat.eqb la 0) eqn:Hla, (PrimFloat.eqb lo 0) eqn:Hlo; simpl;
      split; try congruence;
      try (intros (la' & lo' & [= <-] & [= <-] & H1 & H2); congruence).
    intros _. exists la, lo. auto.
  - destruct intruder_photo as [[|c' photo]|]; split; try congruence;
      try (intros (c'' & p & H); discriminate).
    intros _. eauto.
Qed.

Lemma alert_email_dispatch_witness :
  exists m w',
    send_failed_attempt_email "alice@example.com" (Some 48.5%float) (Some 0%float)
      (Some "/9j/4AAQ") env_ok world0
    = (Ok (accepted (sg_send env_ok "SG.key" m)), w') /\
    db w' = db world0 /\
    Mail.to_emails m = "alice@example.com" /\
    Mail.location_info m = None /\
    Mail.attachment m <> None.
Proof.
  destruct (alert_email_dispatch env_ok world0 "alice@example.com"
              (Some 48.5%float) (Some 0%float) (Some "/9j/4AAQ") "S" "G.key")
    as (m & w' & Hrun & Hdb & Hto & Hloc & Hatt); [reflexivity|reflexivity|].
  exists m, w'. repeat split; try assumption.
  - destruct (Mail.location_info m) eqn:H; [|reflexivity].
    destruct (proj1 Hloc) as (la & lo & _ & [= <-] & _ & Hlo); [discriminate|].
    vm_compute in Hlo. discriminate.
  - apply Hatt. eauto.
Defined.

(** The alert never reports success on its own account: the answer is true
    only if a non-empty key is configured, the client library is present
    and the provider answered 202 to a message addressed to the given
    email.  It never raises and never writes to the database. *)
Theorem alert_email_success_needs_202 (e : Env) (w : World) (email : string)
    (latitude longitude : option float) (intruder_photo : option string) :
  exists success w',
    send_failed_attempt_email email latitude longitude intruder_photo e w
    = (Ok success, w') /\
    db w' = db w /\ uuid_calls w' = uuid_calls w /\
    (success = true ->
     exists c key m,
       SENDGRID_API_KEY e = Some (String c key) /\
       sendgrid_importable e = true /\
       Mail.to_emails m = email /\
       sg_send e (String c key) m = SendStatus 202).
Proof.
  destruct (SENDGRID_API_KEY e) as [[|c key]|] eqn:Hkey.
  - rewrite send_failed_attempt_email_no_key by auto.
    exists false, w. repeat split. discriminate.
  - destruct (sendgrid_importable e) eqn:Himp.
    + rewrite (send_failed_attempt_email_run _ _ _ _ _ _ _ _ Hkey Himp).
      eexists; eexists; split; [reflexivity|]. repeat split.
      intros Hacc. exists c, key. eexists. repeat split; [|].
      2: { destruct (sg_send e _ _) as [|s] eqn:Hs; simpl in Hacc; [discriminate|].
           apply Z.eqb_eq in Hacc. subst s. exact Hs. }
      reflexivity.
    + exists false, w. split; [|repeat split; discriminate].
      unfold send_failed_attempt_email; unfold_monad.
      now rewrite Hkey, Himp.
  - rewrite send_failed_attempt_email_no_key by auto.
    exists false, w. repeat split. discriminate.
Qed.

Lemma alert_email_success_needs_202_witness :
  exists m,
    Mail.to_emails m = "alice@example.com" /\
    sg_send env_ok "SG.key" m = SendStatus 202.
Proof.
  destruct (alert_email_success_needs_202 env_ok world0 "alice@example.com"
              None None None) as (success & w' & Hrun & _ & _ & Honly).
  destruct Honly as (c & key & m & Hkey & _ & Hto & Hsend).
  - vm_compute in Hrun. now injection Hrun as <- _.
  - exists m. split; [exact Hto|]. injection Hkey as <- <-. exact Hsend.
Defined.

(** ** The attached photo *)

Lemma split_nonempty (sep : ascii) (s : string) : split sep s <> [].
Proof.
  destruct s as [|c s]; simpl; [discriminate|].
  destruct (Ascii.eqb c sep); [discriminate|].
  destruct (split sep s); discriminate.
Qed.

Lemma split_no_separator (sep : ascii) (s : string) :
  contains sep s = false -> split sep s = [s].
Proof.
  induction s as [|c s IH]; simpl; [reflexivity|].
  destruct (Ascii.eqb c sep); [discriminate|]. simpl.
  intros H. now rewrite (IH H).
Qed.

Lemma split_at_first (sep : ascii) (prefix rest : string) :
  contains sep prefix = false ->
  split sep (prefix ++ String sep rest) = prefix :: split sep rest.
Proof.
  induction prefix as [|c p IH]; simpl.
  - now rewrite Ascii.eqb_refl.
  - destruct (Ascii.eqb c sep); [discriminate|]. simpl.
    intros H. now rewrite (IH H).
Qed.

Lemma contains_at_first (sep : ascii) (prefix rest : string) :
  contains sep (prefix ++ String sep rest) = true.
Proof.
  induction prefix as [|c p IH]; simpl.
  - now rewrite Ascii.eqb_refl.
  - rewrite IH. apply orb_true_r.
Qed.

Lemma photo_data_spec (prefix payload photo : string) :
  contains "," prefix = false ->
  (contains "," payload = false -> photo_data (prefix ++ String "," payload) = payload) /\
  (contains "," photo = false -> photo_data photo = photo).
Proof.
  intros Hp. unfold photo_data. split.
  - intros Hq. rewrite contains_at_first, (split_at_first _ _ _ Hp).
    now rewrite (split_no_separator _ _ Hq).
  - now intros ->.
Qed.

Lemma alert_mail_attachment (e : Env) (w : World) (email : string)
    (latitude longitude : option float) (photo : string) :
  photo <> "" ->
  Mail.attachment (alert_mail e w email latitude longitude (Some photo))
  = Some (Attachment.mk (photo_data photo)
            ("intruder_" ++ strftime_compact (clock e (S (clock_calls w))) ++ ".jpg")
            "image/jpeg" "attachment").
Proof. destruct photo; [contradiction|reflexivity]. Qed.

(** The attachment carries the photo without its data-URL header: for a
    photo of the form [header,payload] with no comma in either part the
    attached content is the payload, and a photo with no comma at all is
    attached as it is.  The file is named after the second clock reading
    and typed image/jpeg. *)
Theorem attachment_strips_data_url_header (e : Env) (w : World) (email : string)
    (latitude longitude : option float) (c : ascii) (key : string)
    (header payload : string) :
  SENDGRID_API_KEY e = Some (String c key) ->
  sendgrid_importable e = true ->
  contains "," header = false ->
  contains "," payload = false ->
  (exists m w' a,
     send_failed_attempt_email email latitude longitude
       (Some (header ++ String "," payload)) e w
     = (Ok (accepted (sg_send e (String c key) m)), w') /\
     Mail.attachment m = Some a /\
     Attachment.file_content a = payload /\
     Attachment.file_name a
     = "intruder_" ++ strftime_compact (clock e (S (clock_calls w))) ++ ".jpg" /\
     Attachment.file_type a = "image/jpeg") /\
  (payload <> "" ->
   exists m w' a,
     send_failed_attempt_email email latitude longitude (Some payload) e w
     = (Ok (accepted (sg_send e (String c key) m)), w') /\
     Mail.attachment m = Some a /\
     Attachment.file_content a = payload).
Proof.
  intros Hkey Himp Hheader Hpayload.
  destruct (photo_data_spec header payload payload Hheader) as [Hcut Hwhole].
  split.
  - rewrite (send_failed_attempt_email_run _ _ _ _ _ _ _ _ Hkey Himp).
    eexists; eexists.
    exists (Attachment.mk (photo_data (header ++ String "," payload))
              ("intruder_" ++ strftime_compact (clock e (S (clock_calls w))) ++ ".jpg")
              "image/jpeg" "attachment").
    split; [reflexivity|]. split.
    + apply alert_mail_attachment. destruct header; discriminate.
    + cbn [Attachment.file_content Attachment.file_name Attachment.file_type].
      split; [now apply Hcut|]. split; reflexivity.
  - intros Hne.
    rewrite (send_failed_attempt_email_run _ _ _ _ _ _ _ _ Hkey Himp).
    eexists; eexists.
    exists (Attachment.mk (photo_data payload)
              ("intruder_" ++ strftime_compact (clock e (S (clock_calls w))) ++ ".jpg")
              "image/jpeg" "attachment").
    split; [reflexivity|]. split.
    + now apply alert_mail_attachment.
    + cbn [Attachment.file_content]. now apply Hwhole.
Qed.

Lemma attachment_strips_data_url_header_witness :
  exists m w' a,
    send_failed_attempt_email "alice@example.com" None None
      (Some "data:image/jpeg;base64,/9j/4AAQ") env_ok world0
    = (Ok (accepted (sg_send env_ok "SG.key" m)), w') /\
    Mail.attachment m = Some a /\
    Attachment.file_content a = "/9j/4AAQ" /\
    Attachment.file_name a = "intruder_20240115_100001.jpg" /\
    Attachment.file_type a = "image/jpeg".
Proof.
  apply (proj1 (attachment_strips_data_url_header env_ok world0 "alice@example.com"
                  None None "S" "G.key" "data:image/jpeg;base64" "/9j/4AAQ"
                  eq_refl eq_refl eq_refl eq_refl)).
Defined.

(** ** The stored digest *)

Lemma hex_char_digit (x : Z) : hex_digit (SHA256.hex_char (x mod 16)) = true.
Proof.
  pose proof (Z.mod_pos_bound x 16 eq_refl) as H.
  assert (x mod 16 = 0 \/ x mod 16 = 1 \/ x mod 16 = 2 \/ x mod 16 = 3 \/
          x mod 16 = 4 \/ x mod 16 = 5 \/ x mod 16 = 6 \/ x mod 16 = 7 \/
          x mod 16 = 8 \/ x mod 16 = 9 \/ x mod 16 = 10 \/ x mod 16 = 11 \/
          x mod 16 = 12 \/ x mod 16 = 13 \/ x mod 16 = 14 \/ x mod 16 = 15)
    as Hcases by lia.
  repeat (destruct Hcases as [-> | Hcases]; [reflexivity|]).
  rewrite Hcases. reflexivity.
Qed.

Lemma hex_shape (n : nat) (x : Z) (acc : string) :
  String.length (SHA256.hex n x acc) = (n + String.length acc)%nat /\
  (all_chars hex_digit acc = true -> all_chars hex_digit (SHA256.hex n x acc) = true).
Proof.
  revert x acc; induction n as [|n IH]; intros x acc; simpl; [auto|].
  destruct (IH (x / 16) (String (SHA256.hex_char (x mod 16)) acc)) as [Hlen Hall].
  split.
  - rewrite Hlen. simpl. lia.
  - intros Hacc. apply Hall. simpl. now rewrite hex_char_digit, Hacc.
Qed.

(** Whatever the PIN, [hash_pin] gives 64 lower-case hexadecimal digits;
    so what is stored as [pin_hash] is never the PIN itself unless the PIN
    has exactly 64 characters. *)
Theorem hash_pin_format (pin : string) :
  String.length (hash_pin pin) = 64%nat /\
  all_chars hex_digit (hash_pin pin) = true /\
  (String.length pin <> 64%nat -> hash_pin pin <> pin).
Proof.
  unfold hash_pin, SHA256.hexdigest.
  destruct (hex_shape 64 (SHA256.digest (encode pin)) "") as [Hlen Hall].
  split; [exact Hlen|]. split; [now apply Hall|].
  intros Hne Heq. rewrite Heq in Hlen. contradiction.
Qed.

Lemma hash_pin_format_witness : hash_pin "1234" <> "1234".
Proof.
  apply (proj2 (proj2 (hash_pin_format "1234"))). simpl. discriminate.
Defined.

(** ** The export and the listing *)

(** The export is the listing of GET /access-log/{user_id}, entry by
    entry: same records, same order, each given by its officer name, badge
    number, timestamp in ISO format, coordinates, address and viewed
    documents, the count being their number; it is dated with the clock
    reading it consumes and writes nothing. *)
Theorem export_agrees_with_listing (e : Env) (w : World) (user_id : string) :
  exists logs report w',
    get_access_logs user_id e w = (Ok logs, w) /\
    export_access_logs user_id e w = (Ok report, w') /\
    ExportData.logs report
    = map (fun log =>
             ExportEntry.mk (OfficerAccess.officer_name log)
               (OfficerAccess.badge_number log)
               (isoformat (OfficerAccess.timestamp log))
               (OfficerAccess.latitude log) (OfficerAccess.longitude log)
               (OfficerAccess.address log) (OfficerAccess.documents_viewed log))
          logs /\
    ExportData.total_accesses report = List.length logs /\
    ExportData.export_date report = isoformat (clock e (clock_calls w)) /\
    db w' = db w /\ clock_calls w' = S (clock_calls w).
Proof.
  rewrite export_access_logs_run, get_access_logs_run. cbn zeta.
  eexists; eexists; eexists. split; [reflexivity|]. split; [reflexivity|].
  repeat split.
Qed.

(** ** One user's PIN change and the other users *)

Lemma find_one_after_update {A : Type} (q q' : A -> bool) (upd : A -> A) (c : list A) :
  (forall x, q' (upd x) = q' x) ->
  (forall x, q x = true -> q' x = false) ->
  Mongo.find_one q' (snd (Mongo.update_one q upd c)) = Mongo.find_one q' c.
Proof.
  intros Hupd Hdisj. unfold Mongo.find_one.
  induction c as [|x c IH]; simpl; [reflexivity|].
  destruct (q x) eqn:Hq; simpl.
  - now rewrite Hupd, (Hdisj x Hq).
  - destruct (Mongo.update_one q upd c) as [n r]; simpl in *.
    now rewrite IH.
Qed.

(** A PIN change for one id, whether it succeeds or fails, leaves the
    user found under any other id as it was, and with it the answer of
    every PIN check for that other id. *)
Theorem pin_change_isolated (e : Env) (w : World)
    (user_id old_pin new_pin other_id : string) :
  other_id <> user_id ->
  let w1 := snd (update_pin user_id old_pin new_pin e w) in
  user_by_id w1 other_id = user_by_id w other_id /\
  forall pin,
    fst (verify_user_pin (PinVerify.mk other_id pin) e w1)
    = fst (verify_user_pin (PinVerify.mk other_id pin) e w).
Proof.
  intros Hne w1.
  assert (user_by_id w1 other_id = user_by_id w other_id) as Hsame.
  { subst w1. rewrite update_pin_run.
    destruct (user_by_id w user_id) as [u|]; [|reflexivity].
    destruct (verify_pin _ _); [|reflexivity].
    unfold user_by_id. cbn [snd db users].
    apply find_one_after_update.
    - reflexivity.
    - intros x Hx. apply String.eqb_eq in Hx. apply String.eqb_neq. congruence. }
  split; [exact Hsame|]. intros pin.
  rewrite !verify_user_pin_run. cbn [PinVerify.user_id PinVerify.pin].
  rewrite Hsame. destruct (user_by_id w other_id); reflexivity.
Qed.

Lemma pin_change_isolated_witness :
  user_by_id (snd (update_pin "u1" "1234" "5678" env0 world_two)) "u2" = Some bob.
Proof.
  destruct (pin_change_isolated env0 world_two "u1" "1234" "5678" "u2") as [H _].
  - discriminate.
  - rewrite H. reflexivity.
Defined.
